(** * Progress-computation engine of the fabrication dashboard

    A shallow embedding of the calculation core of [App_readonly.py]:
    the configuration tables ([STEPS_ORDER], [STEP_RANK], [PROGRESS_MAP]),
    the schema validator [ensure_columns], the row calculator
    [recompute_progress] and the three aggregators [step_advancement],
    [phase_advancement] and [assembly_table].

    Numbers.  The program computes on float64 columns.  The engine is
    embedded twice.  In the first embedding a mass or a percentage is a
    rational ([Q]) and the arithmetic is exact; it is used for what does not
    depend on rounding: which lines an aggregator selects, which lines it
    returns and in which order, what formula a cell holds, and comparisons
    that rounding preserves.  In the second, module [F64], the numbers are
    binary64 numbers and a sum is numpy's sum; what is said of two different
    sums is said there.  A missing value (pandas' NaN) is [None] in a column
    of options, and [CNaN] in a raw cell.

    Strings are byte strings holding the UTF-8 text of the source; the
    byte-wise lexicographic order of [String.compare] is the code-point order
    Python compares [str] values with. *)

From Stdlib Require Import QArith ZArith String OrdersEx.
From Stdlib Require PrimFloat.
From stdpp Require Import gmap strings list sorting.

Set Warnings "-inexact-float".

(** ** Rationals: the comparisons and sums the program uses *)

(** [x < y] as a boolean, the test of a Python conditional expression. *)
Definition Qltb (x y : Q) : bool :=
  match (x ?= y)%Q with Lt => true | _ => false end.

(** [Series.sum()] of a numeric column, as an exact sum (the sum of an empty
    column is 0).  The sum the program computes is [F64.series_sum], which
    rounds and depends on the order and the number of the cells; two
    different exact sums are not compared below. *)
Definition series_sum (s : list Q) : Q := foldr Qplus 0%Q s.

(** Element-wise product of two columns of the same frame. *)
Definition series_mul (a b : list Q) : list Q := zip_with Qmult a b.

(** [Series.map(d)] with a dictionary: a value that is no key of [d] maps to
    a missing value. *)
Definition series_map {K V} `{Countable K} (d : gmap K V) (s : list K)
  : list (option V) := (λ k, d !! k) <$> s.

(** [Series.fillna(v)]. *)
Definition fillna {V} (v : V) (s : list (option V)) : list V :=
  default v <$> s.

(** [enumerate(l)], with the indices as Python integers. *)
Definition enumerate {A} (l : list A) : list (Z * A) :=
  zip (Z.of_nat <$> seq 0 (length l)) l.

(** ** Configuration tables *)

Definition STEPS_ORDER : list string :=
  ["Préparation"; "Assemblage"; "Traitement de surface"; "Finalisation"].

(** [{s: i for i, s in enumerate(STEPS_ORDER)}] *)
Definition STEP_RANK : gmap string Z :=
  list_to_map ((λ p, (p.2, p.1)) <$> enumerate STEPS_ORDER).

Definition PROGRESS_MAP : gmap string Q :=
  list_to_map
    [("Préparation", 0.25%Q);
     ("Assemblage", 0.60%Q);
     ("Traitement de surface", 0.85%Q);
     ("Finalisation", 1.00%Q);
     ("None", 0.00%Q)].

(** [STEP_RANK.get(s, -1)] *)
Definition step_rank_get (s : string) : Z := default (-1)%Z (STEP_RANK !! s).

(** ** Validated tables

    After validation a table has the seven columns below, one [Row] per
    line of the sheet, in sheet order.  A column is read with [fmap] of its
    projection and written with one of the [set_] functions, which take the
    new column aligned on the same index.

    The phase, the assembly number and the step of a line are texts.  A step
    cell that is empty or holds anything but one of the four step names is
    treated by every function below as a text that is no key of the tables,
    so any such text stands for it. *)

Record Row := mkRow {
  PHASE : string;
  ASSEMBLY_NO : string;
  PART_NO : string;
  TOT_MASS : Q;
  Etape : string;
  RowProgress : Q;
  CompletedMass_Row : Q
}.

Abbreviation DataFrame := (list Row).

Definition with_RowProgress (r : Row) (v : Q) : Row :=
  mkRow (PHASE r) (ASSEMBLY_NO r) (PART_NO r) (TOT_MASS r) (Etape r)
        v (CompletedMass_Row r).

Definition with_CompletedMass_Row (r : Row) (v : Q) : Row :=
  mkRow (PHASE r) (ASSEMBLY_NO r) (PART_NO r) (TOT_MASS r) (Etape r)
        (RowProgress r) v.

(** [df["RowProgress%"] = col] *)
Definition set_RowProgress (df : DataFrame) (col : list Q) : DataFrame :=
  zip_with with_RowProgress df col.

(** [df["CompletedMass_Row"] = col] *)
Definition set_CompletedMass_Row (df : DataFrame) (col : list Q) : DataFrame :=
  zip_with with_CompletedMass_Row df col.

(** [df.loc[mask, "TOT MASS (Kg)"]] and the like: the values of column [c]
    on the lines where the boolean column [mask] is true. *)
Fixpoint loc {A} (mask : list bool) (c : list A) : list A :=
  match mask, c with
  | b :: mask', x :: c' => if b then x :: loc mask' c' else loc mask' c'
  | _, _ => []
  end.

(** ** Progress calculator *)

(** [out = df.copy()] makes [out] a table of its own: the assignments below
    write to it and the argument stays as it was, so the function is a
    function of the value of its argument. *)
Definition recompute_progress (df : DataFrame) : DataFrame :=
  let out := df in
  let out :=
    set_RowProgress out (fillna 0.0%Q (series_map PROGRESS_MAP (Etape <$> out))) in
  let out :=
    set_CompletedMass_Row out
      (series_mul (TOT_MASS <$> out) (RowProgress <$> out)) in
  out.

(** ** Python's [sorted] and pandas' [unique] *)

(** [Series.unique()]: the distinct values, in order of first appearance. *)
Definition unique {A} `{EqDecision A} (s : list A) : list A :=
  foldl (λ seen x, if decide (x ∈ seen) then seen else seen ++ [x]) [] s.

(** The order of Python on [str]: lexicographic on code points. *)
Definition str_le (a b : string) : Prop := Is_true (String.leb a b).

(** The order of Python on pairs of [str]: lexicographic on components. *)
Definition pair_leb (a b : string * string) : bool :=
  match String.compare a.1 b.1 with
  | Lt => true
  | Eq => String.leb a.2 b.2
  | Gt => false
  end.

Definition pair_le (a b : string * string) : Prop := Is_true (pair_leb a b).

(** [sorted(l)] for a list of strings. *)
Definition sorted (l : list string) : list string := merge_sort str_le l.

(** ** Step aggregator *)

Record StepRow := mkStepRow {
  step_Etape : string;
  step_CompletedMass : Q;
  step_Avancement : Q
}.

(** The percentage both aggregators and the global indicator compute:
    [(part / whole) * 100 if whole > 0 else 0.0]. *)
Definition pct_of (part whole : Q) : Q :=
  if Qltb 0 whole then ((part / whole) * 100)%Q else 0.0%Q.

(** The mask [df["Etape"].map(lambda s: STEP_RANK.get(s, -1)) >= k]. *)
Definition rank_mask (k : Z) (df : DataFrame) : list bool :=
  (λ rk, (rk >=? k)%Z) <$> (step_rank_get <$> (Etape <$> df)).

(** The body of the loop over [STEPS_ORDER].  [STEP_RANK[step]] is a
    subscription, which fails on a key that is absent: the loop runs in
    [option]. *)
Definition step_advancement_row (df : DataFrame) (total_mass : Q)
    (step : string) : option StepRow :=
  k ← STEP_RANK !! step;
  let treated_mass := series_sum (loc (rank_mask k df) (TOT_MASS <$> df)) in
  let pct := pct_of treated_mass total_mass in
  Some (mkStepRow step treated_mass pct).

Definition step_advancement (df : DataFrame) : option (list StepRow) :=
  let total_mass := series_sum (TOT_MASS <$> df) in
  foldl (λ acc step,
           rows ← acc;
           row ← step_advancement_row df total_mass step;
           Some (rows ++ [row]))
        (Some []) STEPS_ORDER.

(** ** Phase aggregator *)

Record PhaseRow := mkPhaseRow {
  phase_PHASE : string;
  phase_CompletedMass : Q;
  phase_Avancement : Q
}.

(** The mask [df["PHASE"] == phase]. *)
Definition phase_mask (phase : string) (df : DataFrame) : list bool :=
  (λ p, String.eqb p phase) <$> (PHASE <$> df).

Definition phase_advancement_row (df : DataFrame) (phase : string) : PhaseRow :=
  let phase_total_mass :=
    series_sum (loc (phase_mask phase df) (TOT_MASS <$> df)) in
  let treated_mass :=
    series_sum (loc (phase_mask phase df) (CompletedMass_Row <$> df)) in
  let pct := pct_of treated_mass phase_total_mass in
  mkPhaseRow phase treated_mass pct.

Definition phase_advancement (df : DataFrame) : list PhaseRow :=
  foldl (λ rows phase, rows ++ [phase_advancement_row df phase])
        [] (sorted (unique (PHASE <$> df))).

(** ** Assembly rollup *)

(** [df.groupby(["PHASE", "ASSEMBLY NO."])]: one group per distinct pair of
    keys, the groups in ascending order of the pair, the lines of a group in
    sheet order. *)
Definition group_key (r : Row) : string * string := (PHASE r, ASSEMBLY_NO r).

Definition groupby (df : DataFrame) : list ((string * string) * list Row) :=
  (λ k, (k, filter (λ r, group_key r = k) df))
    <$> merge_sort pair_le (unique (group_key <$> df)).

(** [min(l)] for a list that has a first element. *)
Definition py_min (x : Z) (l : list Z) : Z := foldl Z.min x l.

(** [lambda s: min([STEP_RANK.get(x, -1) for x in s]) if len(s) else -1] *)
Definition EtapeRank_agg (s : list string) : Z :=
  match step_rank_get <$> s with
  | [] => (-1)%Z
  | x :: l => py_min x l
  end.

(** [{v: k for k, v in STEP_RANK.items()}] *)
Definition inv_rank : gmap Z string :=
  list_to_map ((λ p, (p.2, p.1)) <$> map_to_list STEP_RANK).

(** The frame [agg] after [reset_index()]. *)
Record AggRow := mkAggRow {
  agg_PHASE : string;
  agg_ASSEMBLY_NO : string;
  agg_AssemblyMass : Q;
  agg_EtapeRank : Z
}.

(** The frame [assembly_table] returns. *)
Record AsmRow := mkAsmRow {
  asm_PHASE : string;
  asm_ASSEMBLY_NO : string;
  AssemblyMass : Q;
  EtapeAsm : string
}.

Definition assembly_agg (df : DataFrame) : list AggRow :=
  (λ g, mkAggRow g.1.1 g.1.2
          (series_sum (TOT_MASS <$> g.2))
          (EtapeRank_agg (Etape <$> g.2)))
    <$> groupby df.

Definition assembly_table (df : DataFrame) : list AsmRow :=
  let agg := assembly_agg df in
  let EtapeAsm_col :=
    fillna "None" (series_map inv_rank (agg_EtapeRank <$> agg)) in
  zip_with (λ a e, mkAsmRow (agg_PHASE a) (agg_ASSEMBLY_NO a)
                            (agg_AssemblyMass a) e)
           agg EtapeAsm_col.

(** ** Global indicators *)

Definition total_mass (df : DataFrame) : Q := series_sum (TOT_MASS <$> df).

Definition completed_global_mass (df : DataFrame) : Q :=
  series_sum (CompletedMass_Row <$> df).

Definition progress_global (df : DataFrame) : Q :=
  pct_of (completed_global_mass df) (total_mass df).

(** ** Raw tables and the objects of a session

    What the loader hands to the validator is a table whose columns are not
    known in advance: a frame maps a column label to the cells of that
    column, and has a number of lines.  A cell of a sheet is a text, a
    number, or empty.

    A Python variable holds a reference to a frame: assigning to [df[c]]
    changes the object every holder of the reference sees.  The objects live
    in a store indexed by address, next to the error messages the page has
    displayed ([st.error]). *)

Inductive cell :=
  | CStr (s : string)
  | CNum (q : Q)
  | CNaN.

Record RawFrame := mkRawFrame {
  nrows : nat;
  columns : gmap string (list cell)
}.

Definition ref := nat.

Record session := mkSession {
  heap : gmap ref RawFrame;
  displayed_errors : list string
}.

(** How a call ends: it returns, the script is stopped ([st.stop()]), or an
    exception is raised (a column read before it exists). *)
Inductive outcome (A : Type) :=
  | Returned (a : A)
  | Stopped
  | Raised.
Arguments Returned {A} a.
Arguments Stopped {A}.
Arguments Raised {A}.

Definition M (A : Type) : Type := session → outcome A * session.

Definition ret {A} (a : A) : M A := λ σ, (Returned a, σ).

Definition bind {A B} (m : M A) (k : A → M B) : M B :=
  λ σ, match m σ with
       | (Returned a, σ') => k a σ'
       | (Stopped, σ') => (Stopped, σ')
       | (Raised, σ') => (Raised, σ')
       end.

Notation "x ←← m ; k" := (bind m (λ x, k))
  (at level 100, m at next level, k at level 200, right associativity).
Notation "m ;;; k" := (bind m (λ _, k))
  (at level 100, k at level 200, right associativity).

(** [st.error(msg)] *)
Definition st_error (msg : string) : M unit :=
  λ σ, (Returned (), mkSession (heap σ) (displayed_errors σ ++ [msg])).

(** [st.stop()] *)
Definition st_stop : M unit := λ σ, (Stopped, σ).

(** [c in df.columns] *)
Definition has_column (df : ref) (c : string) : M bool :=
  λ σ, match heap σ !! df with
       | Some f => (Returned (bool_decide (is_Some (columns f !! c))), σ)
       | None => (Raised, σ)
       end.

(** [df[c]] *)
Definition get_column (df : ref) (c : string) : M (list cell) :=
  λ σ, match heap σ !! df with
       | Some f => match columns f !! c with
                   | Some col => (Returned col, σ)
                   | None => (Raised, σ)
                   end
       | None => (Raised, σ)
       end.

(** [df[c] = col], in place. *)
Definition set_column (df : ref) (c : string) (col : list cell) : M unit :=
  λ σ, match heap σ !! df with
       | Some f =>
           (Returned (),
            mkSession (<[df := mkRawFrame (nrows f) (<[c := col]> (columns f))]> (heap σ))
                      (displayed_errors σ))
       | None => (Raised, σ)
       end.

(** [df[c] = v] with a scalar [v], which fills the column. *)
Definition set_column_scalar (df : ref) (c : string) (v : cell) : M unit :=
  λ σ, match heap σ !! df with
       | Some f => set_column df c (replicate (nrows f) v) σ
       | None => (Raised, σ)
       end.

(** [for x in l: body(x)] *)
Fixpoint for_each {A} (l : list A) (body : A → M unit) : M unit :=
  match l with
  | [] => ret ()
  | x :: l' => body x ;;; for_each l' body
  end.

(** ** Schema validator *)

Section Validator.

(** The conversions of pandas the validator relies on are taken as given:
    how a text is read as a number ([pd.to_numeric], [None] when it is not
    one), how a number is printed ([astype(str)]), and what [astype(str)]
    makes of an empty cell, which depends on the version of pandas: a text
    ("nan" in pandas 2), or nothing, the cell staying empty (pandas 3). *)
Variable parse_float : string → option Q.
Variable str_of_float : Q → string.
Variable str_of_missing : option string.

(** [Series.astype(str)] *)
Definition astype_str (c : cell) : cell :=
  match c with
  | CStr s => CStr s
  | CNum q => CStr (str_of_float q)
  | CNaN => match str_of_missing with Some s => CStr s | None => CNaN end
  end.

(** [pd.to_numeric(s, errors="coerce")] *)
Definition to_numeric_coerce (c : cell) : option Q :=
  match c with
  | CStr s => parse_float s
  | CNum q => Some q
  | CNaN => None
  end.

Definition required : list string :=
  ["PHASE"; "ASSEMBLY NO."; "PART NO."; "TOT MASS (Kg)"].

(** [f"⚠️ Colonne manquante dans Excel : '{c}'"] *)
Definition missing_message (c : string) : string :=
  "⚠️ Colonne manquante dans Excel : '" +:+ c +:+ "'".

Definition ensure_columns (df : ref) : M ref :=
  for_each required (λ c,
    present ←← has_column df c;
    if present then ret ()
    else (st_error (missing_message c) ;;; st_stop)) ;;;
  phase ←← get_column df "PHASE";
  set_column df "PHASE" (astype_str <$> phase) ;;;
  mass ←← get_column df "TOT MASS (Kg)";
  set_column df "TOT MASS (Kg)"
    (CNum <$> fillna 0.0%Q (to_numeric_coerce <$> mass)) ;;;
  present ←← has_column df "Etape";
  (if present then ret () else set_column_scalar df "Etape" (CStr "None")) ;;;
  present ←← has_column df "RowProgress%";
  (if present then ret () else set_column_scalar df "RowProgress%" (CNum 0.0%Q)) ;;;
  present ←← has_column df "CompletedMass_Row";
  (if present then ret ()
   else set_column_scalar df "CompletedMass_Row" (CNum 0.0%Q)) ;;;
  ret df.

(** The required columns a frame lacks, in the order they are checked. *)
Definition absent (f : RawFrame) : list string :=
  filter (λ c, columns f !! c = None) required.

(** The coercion of one cell of the mass column. *)
Definition coerce_mass (c : cell) : cell := CNum (default 0.0%Q (to_numeric_coerce c)).

(** The columns of a frame once column [c] has been filled with [v] unless
    it was there. *)
Definition add_if_absent (c : string) (v : cell) (n : nat)
    (cols : gmap string (list cell)) : gmap string (list cell) :=
  if bool_decide (is_Some (cols !! c)) then cols
  else <[c := replicate n v]> cols.

(** The frame the argument of [ensure_columns] has become when the call
    returns, for a frame that has the phase column [phase] and the mass
    column [mass]. *)
Definition validated (f : RawFrame) (phase mass : list cell) : RawFrame :=
  mkRawFrame (nrows f)
    (add_if_absent "CompletedMass_Row" (CNum 0.0%Q) (nrows f)
      (add_if_absent "RowProgress%" (CNum 0.0%Q) (nrows f)
        (add_if_absent "Etape" (CStr "None") (nrows f)
          (<["TOT MASS (Kg)" := coerce_mass <$> mass]>
            (<["PHASE" := astype_str <$> phase]> (columns f)))))).

End Validator.

(** The five columns the validator may write. *)
Definition written_columns : list string :=
  ["PHASE"; "TOT MASS (Kg)"; "Etape"; "RowProgress%"; "CompletedMass_Row"].

(** Conversions to run the validator on sheets whose phase cells are texts
    and whose mass cells are numbers, where neither is called on. *)
Definition no_parse (s : string) : option Q := None.
Definition no_print (q : Q) : string := "".

(** [astype(str)] as in pandas 2: an empty cell becomes the text "nan". *)
Definition missing_as_nan : option string := Some "nan".

(** ** Vocabulary of the statements *)

(** The rank of a step, as the aggregators compare it: the position in
    [STEPS_ORDER], and -1 for anything else. *)
Definition rank (s : string) : Z := step_rank_get s.

(** The lines of a table that have reached step [S] or a later one. *)
Definition reached (S : string) (df : DataFrame) : DataFrame :=
  filter (λ r, (rank S ≤ rank (Etape r))%Z) df.

(** The lines of a table that belong to phase [p]. *)
Definition of_phase (p : string) (df : DataFrame) : DataFrame :=
  filter (λ r, PHASE r = p) df.

(** The lines of a table that belong to assembly [k] (a phase and an
    assembly number). *)
Definition members (k : string * string) (df : DataFrame) : DataFrame :=
  filter (λ r, group_key r = k) df.

(** Strictly ascending order on strings. *)
Definition str_lt (a b : string) : Prop := String.compare a b = Lt.

(** The percentage as the specification words it: the quotient times 100,
    or 0.0 when the whole is 0. *)
Definition pct_as_specified (part whole : Q) : Q :=
  if Qeq_bool whole 0 then 0.0%Q else ((part / whole) * 100)%Q.

(** All masses of a table are non-negative. *)
Definition nonneg_masses (df : DataFrame) : Prop :=
  Forall (λ r, (0 <= TOT_MASS r)%Q) df.

(** The step an assembly shows for a rank: the step of [STEPS_ORDER] at that
    position, and "None" for a rank that is no position. *)
Definition step_of_rank (k : Z) : string := default "None" (inv_rank !! k).

(** The two-part table of the scenario: one phase, a part in preparation and
    a finished part, 100 kg each. *)
Definition scenario_table : DataFrame :=
  [mkRow "A" "A-01" "P-001" 100 "Préparation" 0 0;
   mkRow "A" "A-01" "P-002" 100 "Finalisation" 0 0].

(** A sheet with a negative mass: a single part of -100 kg in preparation. *)
Definition negative_table : DataFrame :=
  [mkRow "A" "A-01" "P-001" (-100) "Préparation" 0 0].

(** A part that has no step yet: its step is the sentinel "None". *)
Definition sentinel_row : Row := mkRow "A" "A-01" "P-001" 100 "None" 0 0.

(** A raw sheet with the four required columns and nothing else, and the
    session that holds it at address 0. *)
Definition bare_sheet : RawFrame :=
  mkRawFrame 1
    (list_to_map [("PHASE", [CStr "A"]); ("ASSEMBLY NO.", [CStr "A-01"]);
                  ("PART NO.", [CStr "P-001"]); ("TOT MASS (Kg)", [CNum 100])]).

Definition bare_session : session := mkSession {[ 0%nat := bare_sheet ]} [].

(** A raw sheet that lacks the assembly column. *)
Definition lacking_sheet : RawFrame :=
  mkRawFrame 1
    (list_to_map [("PHASE", [CStr "A"]); ("PART NO.", [CStr "P-001"]);
                  ("TOT MASS (Kg)", [CNum 100])]).

Definition lacking_session : session := mkSession {[ 0%nat := lacking_sheet ]} [].

(** ** The session of the page

    The script runs from top to bottom at every render.  What survives from
    one run to the next is [st.session_state], a dictionary: the table under
    "df", the label of the source it was loaded from under "source_key", and
    a flag under "refresh_needed". *)

Inductive ss_value :=
  | SFrame (df : DataFrame)
  | SStr (s : string)
  | SBool (b : bool).

(** [st.session_state.get("source_key") != current_source_key]: true when
    the key is absent, and when what it holds is not that text. *)
Definition source_key_differs (ss : gmap string ss_value)
    (current_source_key : string) : bool :=
  match ss !! "source_key" with
  | Some (SStr k) => negb (String.eqb k current_source_key)
  | _ => true
  end.

(** Section 1.b of the script: the loaded table replaces the one of the
    session when the session has none, or has one from another source.
    [df_loaded.copy()] is a table of its own with the value of the loaded
    one. *)
Definition init_session (df_loaded : DataFrame) (current_source_key : string)
    (ss : gmap string ss_value) : gmap string ss_value :=
  let ss :=
    if bool_decide (ss !! "df" = None) then
      <["source_key" := SStr current_source_key]>
        (<["df" := SFrame df_loaded]> ss)
    else if source_key_differs ss current_source_key then
      <["source_key" := SStr current_source_key]>
        (<["df" := SFrame df_loaded]> ss)
    else ss in
  if bool_decide (ss !! "refresh_needed" = None)
  then <["refresh_needed" := SBool false]> ss
  else ss.

(** [st.session_state["df"] = recompute_progress(st.session_state["df"])]:
    the subscription fails when the key is absent, and the calculator when
    what the key holds is no table. *)
Definition first_recompute (ss : gmap string ss_value)
  : option (gmap string ss_value) :=
  match ss !! "df" with
  | Some (SFrame df) => Some (<["df" := SFrame (recompute_progress df)]> ss)
  | _ => None
  end.

(** One run of the script on the session, from the validated table of the
    loader to the first recomputation. *)
Definition script_run (df_loaded : DataFrame) (current_source_key : string)
    (ss : gmap string ss_value) : option (gmap string ss_value) :=
  first_recompute (init_session df_loaded current_source_key ss).

(** What the session holds under "df", if anything, is a table. *)
Definition session_ok (ss : gmap string ss_value) : Prop :=
  match ss !! "df" with
  | Some (SFrame _) | None => True
  | Some _ => False
  end.

(** ** More vocabulary *)

(** Every column of a raw frame has one cell per line. *)
Definition rectangular (f : RawFrame) : Prop :=
  map_Forall (λ _ col, length col = nrows f) (columns f).

(** Strictly ascending order on pairs of strings. *)
Definition pair_lt (a b : string * string) : Prop :=
  str_lt a.1 b.1 ∨ (a.1 = b.1 ∧ str_lt a.2 b.2).

(** All masses of a table are zero. *)
Definition zero_masses (df : DataFrame) : Prop :=
  Forall (λ r, (TOT_MASS r == 0)%Q) df.


(** A table of three parts in two phases, with masses that are not
    negative, and a part without step. *)
Definition mixed_table : DataFrame :=
  [mkRow "B" "B-01" "P-003" 50 "Assemblage" 0 0;
   mkRow "A" "A-01" "P-001" 100 "Finalisation" 0 0;
   mkRow "A" "A-02" "P-002" 30 "None" 0 0].

(** A table whose parts weigh nothing. *)
Definition weightless_table : DataFrame :=
  [mkRow "A" "A-01" "P-001" 0 "Préparation" 0 0;
   mkRow "B" "B-01" "P-002" 0 "Finalisation" 0 0].

(** * The engine in the arithmetic of the program

    The columns of masses and percentages are float64 columns, and
    [Series.sum()] is numpy's sum, which rounds after every addition and
    groups the additions by the length of the column.  Module [F64] is the
    calculator and the step and phase aggregators over binary64 numbers
    ([PrimFloat.float]), operation for operation as the program runs them.
    What is stated of two different sums is stated there. *)

Module F64.
Import PrimFloat.

(** ** numpy's sum of a float64 column

    A column of fewer than 8 cells is added from left to right.  A column
    of 8 to 128 cells is added in eight lanes, lane j taking the cells j,
    j + 8, j + 16, ... of the full chunks of eight; the lanes are then added
    two by two, and the cells after the last full chunk are added to the
    result from left to right.  A longer column is cut in two, the first
    part of n / 2 cells rounded down to a multiple of 8, and the sums of the
    two parts are added. *)

(** [((r[0] + r[1]) + (r[2] + r[3])) + ((r[4] + r[5]) + (r[6] + r[7]))] *)
Definition lane_total (r : list float) : float :=
  match r with
  | [r0; r1; r2; r3; r4; r5; r6; r7] =>
      ((r0 + r1) + (r2 + r3)) + ((r4 + r5) + (r6 + r7))
  | _ => zero
  end.

(** [for (i = 8; i < n - (n % 8); i += 8) r[j] += a[i + j]]: the lanes after
    the full chunks of [a], and the cells that are left. *)
Fixpoint add_chunks (fuel : nat) (r a : list float)
  : list float * list float :=
  match fuel with
  | O => (r, a)
  | S fuel' =>
      if (8 <=? length a)%nat
      then add_chunks fuel' (zip_with add r (take 8 a)) (drop 8 a)
      else (r, a)
  end.

Definition block_sum (a : list float) : float :=
  let '(r, rest) := add_chunks (length a) (take 8 a) (drop 8 a) in
  foldl add (lane_total r) rest.

(** The recursion halves the column; [fuel] bounds its depth, and the
    length of the column is enough. *)
Fixpoint pairwise_sum (fuel : nat) (a : list float) : float :=
  let n := length a in
  if (n <? 8)%nat then foldl add (-0)%float a
  else if (n <=? 128)%nat then block_sum a
  else
    match fuel with
    | O => zero
    | S fuel' =>
        let n2 := (n / 2 - (n / 2) mod 8)%nat in
        pairwise_sum fuel' (take n2 a) + pairwise_sum fuel' (drop n2 a)
    end.

(** [a.sum()] for a float64 array: the reduction starts from 0.  (The sign
    of a result that is zero is not looked at anywhere below.) *)
Definition np_sum (a : list float) : float :=
  (0 + pairwise_sum (length a) a)%float.

(** [Series.sum()]: missing values count for 0. *)
Definition series_sum (s : list float) : float :=
  np_sum ((λ x, if is_nan x then 0%float else x) <$> s).

(** ** Tables *)

Record Row := mkRow {
  PHASE : string;
  ASSEMBLY_NO : string;
  PART_NO : string;
  TOT_MASS : float;
  Etape : string;
  RowProgress : float;
  CompletedMass_Row : float
}.

Definition PROGRESS_MAP : gmap string float :=
  list_to_map
    [("Préparation", 0.25%float);
     ("Assemblage", 0.60%float);
     ("Traitement de surface", 0.85%float);
     ("Finalisation", 1.00%float);
     ("None", 0.00%float)].

(** ** Progress calculator *)

Definition recompute_progress (df : list Row) : list Row :=
  let out := df in
  let out :=
    zip_with (λ r v, mkRow (PHASE r) (ASSEMBLY_NO r) (PART_NO r) (TOT_MASS r)
                           (Etape r) v (CompletedMass_Row r))
      out (fillna 0.0%float (series_map PROGRESS_MAP (Etape <$> out))) in
  let out :=
    zip_with (λ r v, mkRow (PHASE r) (ASSEMBLY_NO r) (PART_NO r) (TOT_MASS r)
                           (Etape r) (RowProgress r) v)
      out (zip_with mul (TOT_MASS <$> out) (RowProgress <$> out)) in
  out.

(** ** Step aggregator *)

Record StepRow := mkStepRow {
  step_Etape : string;
  step_CompletedMass : float;
  step_Avancement : float
}.

(** [(part / whole) * 100 if whole > 0 else 0.0] *)
Definition pct_of (part whole : float) : float :=
  if (0 <? whole)%float then ((part / whole) * 100)%float else 0.0%float.

Definition rank_mask (k : Z) (df : list Row) : list bool :=
  (λ rk, (rk >=? k)%Z) <$> (step_rank_get <$> (Etape <$> df)).

Definition step_advancement_row (df : list Row) (total_mass : float)
    (step : string) : option StepRow :=
  k ← STEP_RANK !! step;
  let treated_mass := series_sum (loc (rank_mask k df) (TOT_MASS <$> df)) in
  let pct := pct_of treated_mass total_mass in
  Some (mkStepRow step treated_mass pct).

Definition step_advancement (df : list Row) : option (list StepRow) :=
  let total_mass := series_sum (TOT_MASS <$> df) in
  foldl (λ acc step,
           rows ← acc;
           row ← step_advancement_row df total_mass step;
           Some (rows ++ [row]))
        (Some []) STEPS_ORDER.

(** ** Phase aggregator *)

Record PhaseRow := mkPhaseRow {
  phase_PHASE : string;
  phase_CompletedMass : float;
  phase_Avancement : float
}.

Definition phase_mask (phase : string) (df : list Row) : list bool :=
  (λ p, String.eqb p phase) <$> (PHASE <$> df).

Definition phase_advancement_row (df : list Row) (phase : string)
  : PhaseRow :=
  let phase_total_mass :=
    series_sum (loc (phase_mask phase df) (TOT_MASS <$> df)) in
  let treated_mass :=
    series_sum (loc (phase_mask phase df) (CompletedMass_Row <$> df)) in
  let pct := pct_of treated_mass phase_total_mass in
  mkPhaseRow phase treated_mass pct.

Definition phase_advancement (df : list Row) : list PhaseRow :=
  foldl (λ rows phase, rows ++ [phase_advancement_row df phase])
        [] (sorted (unique (PHASE <$> df))).

(** ** Global indicators *)

Definition completed_global_mass (df : list Row) : float :=
  series_sum (CompletedMass_Row <$> df).

(** ** Vocabulary *)

(** The lines that have reached step [S] or a later one. *)
Definition reached (S : string) (df : list Row) : list Row :=
  filter (λ r, (rank S ≤ rank (Etape r))%Z) df.

(** The lines of phase [p]. *)
Definition of_phase (p : string) (df : list Row) : list Row :=
  filter (λ r, PHASE r = p) df.

(** All masses of a table are non-negative. *)
Definition nonneg_masses (df : list Row) : Prop :=
  Forall (λ r, (0 <=? TOT_MASS r)%float = true) df.





End F64.

(** * Properties *)

(** ** Arithmetic and list lemmas *)

Lemma Qltb_lt x y : Qltb x y = true ↔ (x < y)%Q.
Proof.
  unfold Qltb. rewrite Qlt_alt. destruct (x ?= y)%Q; split; congruence.
Qed.

Lemma Qltb_nlt x y : Qltb x y = false ↔ (y <= x)%Q.
Proof.
  rewrite <- not_true_iff_false, Qltb_lt. split.
  - apply Qnot_lt_le.
  - apply Qle_not_lt.
Qed.

(** On a whole that is not negative the guard of the program is the one of
    the specification. *)
Lemma pct_of_as_specified part whole :
  (0 <= whole)%Q → pct_of part whole = pct_as_specified part whole.
Proof.
  intros Hw. unfold pct_of, pct_as_specified.
  destruct (Qltb 0 whole) eqn:Hlt, (Qeq_bool whole 0) eqn:Heq; try done.
  - apply Qltb_lt in Hlt. apply Qeq_bool_iff in Heq.
    rewrite Heq in Hlt. by apply Qlt_irrefl in Hlt.
  - apply Qltb_nlt in Hlt. apply Qeq_bool_neq in Heq.
    exfalso. apply Heq. by apply Qle_antisym.
Qed.

(** Selecting with a mask computed from the lines is filtering the lines. *)
Lemma loc_mask_filter {A B} (p : A → bool) (f : A → B) (l : list A) :
  loc (p <$> l) (f <$> l) = f <$> filter (λ x, Is_true (p x)) l.
Proof.
  induction l as [|x l IH]; [done|].
  cbn [fmap list_fmap loc]. rewrite filter_cons.
  destruct (p x) eqn:Hp; cbn [Is_true].
  - rewrite decide_True by done. cbn [fmap list_fmap] in *. by rewrite IH.
  - rewrite decide_False by tauto. done.
Qed.

Lemma filter_ext_eq {A} (P Q : A → Prop) `{∀ x, Decision (P x)}
    `{∀ x, Decision (Q x)} (l : list A) :
  (∀ x, P x ↔ Q x) → filter P l = filter Q l.
Proof.
  intros HPQ. induction l as [|x l IH]; [done|].
  rewrite !filter_cons, IH.
  destruct (decide (P x)) as [HP|HP], (decide (Q x)) as [HQ|HQ];
    [done | by apply HPQ in HP | by apply HPQ in HQ | done].
Qed.

(** A loop that appends one line per element builds the image of the list. *)
Lemma foldl_snoc_fmap {A B} (f : A → B) (l : list A) (acc : list B) :
  foldl (λ rows x, rows ++ [f x]) acc l = acc ++ (f <$> l).
Proof.
  revert acc. induction l as [|x l IH]; intros acc; simpl.
  - by rewrite app_nil_r.
  - rewrite IH. by rewrite <- app_assoc.
Qed.

(** ** The configuration tables, read as functions *)

Lemma STEP_RANK_lookup s :
  STEP_RANK !! s =
    if decide (s = "Préparation") then Some 0%Z
    else if decide (s = "Assemblage") then Some 1%Z
    else if decide (s = "Traitement de surface") then Some 2%Z
    else if decide (s = "Finalisation") then Some 3%Z
    else None.
Proof.
  change STEP_RANK with
    (<["Préparation" := 0%Z]> (<["Assemblage" := 1%Z]>
      (<["Traitement de surface" := 2%Z]>
        (<["Finalisation" := 3%Z]> (∅ : gmap string Z))))).
  repeat (rewrite lookup_insert; case_decide; subst;
          [ repeat case_decide; congruence | ]).
  rewrite lookup_empty. repeat case_decide; congruence.
Qed.

Lemma PROGRESS_MAP_lookup s :
  PROGRESS_MAP !! s =
    if decide (s = "Préparation") then Some 0.25%Q
    else if decide (s = "Assemblage") then Some 0.60%Q
    else if decide (s = "Traitement de surface") then Some 0.85%Q
    else if decide (s = "Finalisation") then Some 1.00%Q
    else if decide (s = "None") then Some 0.00%Q
    else None.
Proof.
  unfold PROGRESS_MAP. cbn [list_to_map foldr uncurry fst snd].
  repeat (rewrite lookup_insert; case_decide; subst;
          [ repeat case_decide; congruence | ]).
  rewrite lookup_empty. repeat case_decide; congruence.
Qed.

Lemma STEPS_ORDER_elem s :
  s ∈ STEPS_ORDER ↔
  (s = "Préparation" ∨ s = "Assemblage" ∨ s = "Traitement de surface"
   ∨ s = "Finalisation").
Proof. unfold STEPS_ORDER. rewrite !elem_of_cons, elem_of_nil. tauto. Qed.

(** A step of the order has its position as rank; anything else has -1. *)
Lemma rank_cases s :
  (s = "Préparation" ∧ rank s = 0%Z) ∨ (s = "Assemblage" ∧ rank s = 1%Z)
  ∨ (s = "Traitement de surface" ∧ rank s = 2%Z)
  ∨ (s = "Finalisation" ∧ rank s = 3%Z)
  ∨ ((s ∉ STEPS_ORDER) ∧ rank s = (-1)%Z).
Proof.
  unfold rank, step_rank_get. rewrite STEP_RANK_lookup, STEPS_ORDER_elem.
  repeat case_decide; simpl; tauto.
Qed.

Lemma STEP_RANK_order s : s ∈ STEPS_ORDER → STEP_RANK !! s = Some (rank s).
Proof.
  unfold rank, step_rank_get. rewrite STEP_RANK_lookup, STEPS_ORDER_elem.
  repeat case_decide; simpl; [done..|intuition congruence].
Qed.

(** ** Progress calculator *)

(** What the calculator does to one line. *)
Lemma recompute_progress_fmap df :
  recompute_progress df =
  (λ r, let p := default 0.0%Q (PROGRESS_MAP !! Etape r) in
        mkRow (PHASE r) (ASSEMBLY_NO r) (PART_NO r) (TOT_MASS r) (Etape r)
              p (TOT_MASS r * p)%Q) <$> df.
Proof.
  unfold recompute_progress, set_CompletedMass_Row, set_RowProgress,
    series_mul, fillna, series_map.
  induction df as [|r df IH]; [done|].
  cbn [fmap list_fmap zip_with]. by f_equal.
Qed.

Lemma PROGRESS_MAP_range s :
  (0 <= default 0.0 (PROGRESS_MAP !! s) <= 1)%Q.
Proof.
  rewrite PROGRESS_MAP_lookup.
  repeat case_decide; simpl; split; by vm_compute.
Qed.

(** C5: for every line, the calculator sets the progress to the entry of the
    weight table for the line's step, and to 0.0 when the step is no key of
    the table, so that the progress lies in [0,1]; it sets the completed
    mass to the mass times that progress; it leaves the other columns and the
    order of the lines as they are.  The calculator is a total function: no
    step value makes it fail. *)
Theorem recompute_progress_rows (df : DataFrame) :
  Forall2 (λ r r',
      RowProgress r' = default 0.0%Q (PROGRESS_MAP !! Etape r)
      ∧ (0 <= RowProgress r' <= 1)%Q
      ∧ CompletedMass_Row r' = (TOT_MASS r * RowProgress r')%Q
      ∧ PHASE r' = PHASE r ∧ ASSEMBLY_NO r' = ASSEMBLY_NO r
      ∧ PART_NO r' = PART_NO r ∧ TOT_MASS r' = TOT_MASS r
      ∧ Etape r' = Etape r)
    df (recompute_progress df).
Proof.
  rewrite recompute_progress_fmap. apply Forall2_fmap_r, Forall_Forall2_diag.
  apply Forall_forall. intros r _. cbn.
  split_and!; try done; apply PROGRESS_MAP_range.
Qed.

(** C6: the calculator is idempotent. *)
Theorem recompute_progress_idempotent (df : DataFrame) :
  recompute_progress (recompute_progress df) = recompute_progress df.
Proof.
  rewrite !recompute_progress_fmap, <- list_fmap_compose.
  apply list_fmap_ext. intros i r _. done.
Qed.

(** ** Step aggregator *)

Lemma rank_mask_reached (S : string) (df : DataFrame) :
  loc (rank_mask (rank S) df) (TOT_MASS <$> df) = TOT_MASS <$> reached S df.
Proof.
  unfold rank_mask, reached. rewrite <- !list_fmap_compose.
  rewrite (loc_mask_filter (λ r, (step_rank_get (Etape r) >=? rank S)%Z)).
  f_equal. apply filter_ext_eq. intros r. unfold rank.
  rewrite Z.geb_leb, Is_true_true, Z.leb_le. done.
Qed.

Lemma step_advancement_row_eq df t S :
  S ∈ STEPS_ORDER →
  step_advancement_row df t S =
  Some (mkStepRow S (series_sum (TOT_MASS <$> reached S df))
                  (pct_of (series_sum (TOT_MASS <$> reached S df)) t)).
Proof.
  intros HS. unfold step_advancement_row.
  rewrite (STEP_RANK_order S HS). cbn [mbind option_bind].
  by rewrite rank_mask_reached.
Qed.

(** A loop in [option] that appends one line per element succeeds when its
    body does on every element. *)
Lemma foldl_option_snoc {A B} (f : A → option B) (g : A → B) (l : list A)
    (acc : list B) :
  Forall (λ x, f x = Some (g x)) l →
  foldl (λ acc x, rows ← acc; row ← f x; Some (rows ++ [row])) (Some acc) l
  = Some (acc ++ (g <$> l)).
Proof.
  intros Hl. revert acc.
  induction Hl as [|x l Hx _ IH]; intros acc; cbn [foldl fmap list_fmap].
  - by rewrite app_nil_r.
  - cbn [mbind option_bind]. rewrite Hx. cbn [mbind option_bind].
    rewrite IH. by rewrite <- app_assoc.
Qed.

(** The aggregator never fails, and its lines are the image of the order. *)
Lemma step_advancement_eq df :
  step_advancement df =
  Some ((λ S, mkStepRow S (series_sum (TOT_MASS <$> reached S df))
                (pct_of (series_sum (TOT_MASS <$> reached S df)) (total_mass df)))
        <$> STEPS_ORDER).
Proof.
  unfold step_advancement.
  rewrite (foldl_option_snoc _
    (λ S, mkStepRow S (series_sum (TOT_MASS <$> reached S df))
            (pct_of (series_sum (TOT_MASS <$> reached S df)) (total_mass df)))).
  - done.
  - apply Forall_forall. intros S HS. by apply step_advancement_row_eq.
Qed.


(** A line whose step is outside the order has reached no step. *)
Lemma reached_unranked S r df1 df2 :
  S ∈ STEPS_ORDER → Etape r ∉ STEPS_ORDER →
  reached S (df1 ++ r :: df2) = reached S (df1 ++ df2).
Proof.
  intros HS Hr. unfold reached. rewrite !filter_app, filter_cons.
  rewrite decide_False; [done|].
  destruct (rank_cases (Etape r)) as [[? _]|[[? _]|[[? _]|[[? _]|[_ ->]]]]];
    try (exfalso; apply Hr, STEPS_ORDER_elem; tauto).
  destruct (rank_cases S) as [[_ ->]|[[_ ->]|[[_ ->]|[[_ ->]|[? _]]]]];
    [lia..|done].
Qed.

(** C1 (as amended): the step aggregator never fails and returns one line
    per step of the fixed order, in that order; the treated mass of the line
    of step S is the sum of the masses of the lines of the table whose step
    rank is at least the rank of S; its percentage is the treated mass
    divided by the total mass, times 100, when the total mass is positive,
    and 0.0 otherwise.  On the two-part scenario the line of "Préparation"
    holds 200 kg and 100%, the line of "Finalisation" 100 kg and 50%. *)
Theorem step_advancement_rows (df : DataFrame) :
  (∃ rows, step_advancement df = Some rows
     ∧ Forall2 (λ S row,
           step_Etape row = S
           ∧ step_CompletedMass row = series_sum (TOT_MASS <$> reached S df)
           ∧ step_Avancement row =
               if Qltb 0 (total_mass df)
               then ((step_CompletedMass row / total_mass df) * 100)%Q
               else 0.0%Q)
         STEPS_ORDER rows)
  ∧ (∃ p a t f, step_advancement scenario_table = Some [p; a; t; f]
       ∧ step_Etape p = "Préparation"
       ∧ (step_CompletedMass p == 200)%Q ∧ (step_Avancement p == 100)%Q
       ∧ step_Etape f = "Finalisation"
       ∧ (step_CompletedMass f == 100)%Q ∧ (step_Avancement f == 50)%Q).
Proof.
  split.
  - eexists. split; [apply step_advancement_eq|].
    apply Forall2_fmap_r, Forall_Forall2_diag, Forall_forall.
    intros S _. done.
  - do 4 eexists. split; [by rewrite step_advancement_eq|].
    split_and!; by vm_compute.
Qed.

(** Against C1 as worded: the percentage as the specification words it
    differs from the one the aggregator returns on a table whose total mass
    is negative: for the
    single part of -100 kg the line of "Préparation" holds -100 kg out of
    -100 kg, which the wording makes 100%, and the aggregator 0.0. *)
Lemma step_advancement_negative_total :
  ∃ row rest,
    step_advancement negative_table = Some (row :: rest)
    ∧ step_Etape row = "Préparation"
    ∧ (step_CompletedMass row == -100)%Q
    ∧ (total_mass negative_table == -100)%Q
    ∧ (pct_as_specified (step_CompletedMass row) (total_mass negative_table)
       == 100)%Q
    ∧ (step_Avancement row == 0)%Q
    ∧ ¬ (step_Avancement row ==
         pct_as_specified (step_CompletedMass row) (total_mass negative_table))%Q.
Proof.
  do 2 eexists. split; [by rewrite step_advancement_eq|].
  split_and!; by vm_compute.
Qed.

(** ** The order on strings, [unique] and [sorted] *)

Lemma compare_as_OT a b : String.compare a b = String_as_OT.compare a b.
Proof.
  revert b. induction a as [|c a IH]; intros [|d b]; cbn; done.
Qed.

Lemma str_lt_trans a b c : str_lt a b → str_lt b c → str_lt a c.
Proof.
  unfold str_lt. rewrite !compare_as_OT.
  apply (@StrictOrder_Transitive _ _ String_as_OT.lt_strorder).
Qed.

Lemma str_lt_irrefl a : ¬ str_lt a a.
Proof.
  unfold str_lt. rewrite compare_as_OT.
  apply (@StrictOrder_Irreflexive _ _ String_as_OT.lt_strorder).
Qed.

Lemma str_le_lt_eq a b : str_le a b ↔ str_lt a b ∨ a = b.
Proof.
  unfold str_le, str_lt, String.leb.
  destruct (String.compare a b) eqn:Hc; cbn.
  - apply String.compare_eq_iff in Hc. tauto.
  - tauto.
  - split; [done|]. intros [?| ->]; [done|].
    exfalso. apply (str_lt_irrefl b). unfold str_lt.
    rewrite String.compare_antisym, Hc. done.
Qed.

#[local] Instance str_le_total : Total str_le.
Proof.
  intros a b. unfold str_le.
  destruct (String.leb_total a b) as [->| ->]; cbn; tauto.
Qed.

#[local] Instance str_le_trans : Transitive str_le.
Proof.
  intros a b c. rewrite !str_le_lt_eq.
  intros [Hab| ->] [Hbc| ->]; eauto using str_lt_trans.
Qed.

Lemma str_le_neq_lt a b : str_le a b → a ≠ b → str_lt a b.
Proof. rewrite str_le_lt_eq. tauto. Qed.

(** A duplicate-free list in ascending order is in strictly ascending
    order. *)
Lemma StronglySorted_strict {A} (le lt : relation A) (l : list A) :
  (∀ a b, le a b → a ≠ b → lt a b) →
  StronglySorted le l → NoDup l → StronglySorted lt l.
Proof.
  intros Hlt. induction 1 as [|x l _ IH Hx]; intros Hnd; [constructor|].
  apply NoDup_cons in Hnd as [Hxl Hnd]. constructor; [by apply IH|].
  apply Forall_forall. intros y Hy. apply Hlt.
  - by eapply Forall_forall in Hx.
  - intros ->. done.
Qed.

Lemma unique_fold {A} `{EqDecision A} (l seen : list A) :
  NoDup seen →
  NoDup (foldl (λ seen x, if decide (x ∈ seen) then seen else seen ++ [x])
               seen l)
  ∧ ∀ x, x ∈ foldl (λ seen x, if decide (x ∈ seen) then seen else seen ++ [x])
               seen l
         ↔ x ∈ seen ∨ x ∈ l.
Proof.
  revert seen. induction l as [|y l IH]; intros seen Hnd; cbn [foldl].
  - split; [done|]. intros x. rewrite elem_of_nil. tauto.
  - case_decide as Hy.
    + destruct (IH seen Hnd) as [? Hin]. split; [done|].
      intros x. rewrite Hin, elem_of_cons.
      split; [tauto|]. intros [?|[->|?]]; tauto.
    + destruct (IH (seen ++ [y])) as [? Hin].
      { apply NoDup_app. split_and!; [done| |apply NoDup_singleton].
        intros x Hx ->%list_elem_of_singleton. done. }
      split; [done|]. intros x.
      rewrite Hin, elem_of_app, list_elem_of_singleton, elem_of_cons. tauto.
Qed.

Lemma NoDup_unique {A} `{EqDecision A} (l : list A) : NoDup (unique l).
Proof. apply unique_fold, NoDup_nil_2. Qed.

Lemma elem_of_unique {A} `{EqDecision A} (l : list A) x :
  x ∈ unique l ↔ x ∈ l.
Proof.
  unfold unique. destruct (unique_fold l [] (NoDup_nil_2)) as [_ ->].
  rewrite elem_of_nil. tauto.
Qed.

Lemma elem_of_sorted l x : x ∈ sorted l ↔ x ∈ l.
Proof. unfold sorted. by rewrite merge_sort_Permutation. Qed.

Lemma sorted_unique_strict l : StronglySorted str_lt (sorted (unique l)).
Proof.
  apply (StronglySorted_strict str_le).
  - apply str_le_neq_lt.
  - apply StronglySorted_merge_sort; apply _.
  - unfold sorted. rewrite merge_sort_Permutation. apply NoDup_unique.
Qed.

(** ** Phase aggregator *)

Lemma phase_mask_of_phase {B} (f : Row → B) (p : string) (df : DataFrame) :
  loc (phase_mask p df) (f <$> df) = f <$> of_phase p df.
Proof.
  unfold phase_mask, of_phase. rewrite <- list_fmap_compose.
  rewrite (loc_mask_filter (λ r, String.eqb (PHASE r) p)).
  f_equal. apply filter_ext_eq. intros r.
  rewrite Is_true_true. apply String.eqb_eq.
Qed.

Lemma phase_advancement_eq df :
  phase_advancement df =
  (λ p, mkPhaseRow p
          (series_sum (CompletedMass_Row <$> of_phase p df))
          (pct_of (series_sum (CompletedMass_Row <$> of_phase p df))
                  (series_sum (TOT_MASS <$> of_phase p df))))
    <$> sorted (unique (PHASE <$> df)).
Proof.
  unfold phase_advancement. rewrite foldl_snoc_fmap. cbn [app].
  apply list_fmap_ext. intros _ p _. unfold phase_advancement_row.
  by rewrite !phase_mask_of_phase.
Qed.

Lemma phase_advancement_phases df :
  phase_PHASE <$> phase_advancement df = sorted (unique (PHASE <$> df)).
Proof.
  rewrite phase_advancement_eq, <- list_fmap_compose.
  rewrite <- (list_fmap_id (sorted _)) at 2. by apply list_fmap_ext.
Qed.

(** C3 (as amended): the phase aggregator returns one line per distinct
    phase of the table, the phases in strictly ascending lexicographic
    order; the treated mass of the line of phase P is the sum of the
    completed masses of the lines of P; its percentage is that mass divided
    by the total mass of the lines of P, times 100, when this total is
    positive, and 0.0 otherwise. *)
Theorem phase_advancement_rows (df : DataFrame) :
  StronglySorted str_lt (phase_PHASE <$> phase_advancement df)
  ∧ (∀ p, p ∈ phase_PHASE <$> phase_advancement df ↔ p ∈ PHASE <$> df)
  ∧ Forall (λ row,
        let P := phase_PHASE row in
        phase_CompletedMass row
          = series_sum (CompletedMass_Row <$> of_phase P df)
        ∧ phase_Avancement row =
            if Qltb 0 (series_sum (TOT_MASS <$> of_phase P df))
            then ((phase_CompletedMass row
                   / series_sum (TOT_MASS <$> of_phase P df)) * 100)%Q
            else 0.0%Q)
      (phase_advancement df).
Proof.
  split_and!.
  - rewrite phase_advancement_phases. apply sorted_unique_strict.
  - intros p. rewrite phase_advancement_phases.
    by rewrite elem_of_sorted, elem_of_unique.
  - rewrite phase_advancement_eq. apply Forall_fmap, Forall_forall.
    intros p _. done.
Qed.

(** Against C3 as worded: the percentage as the specification words it
    differs from the one the phase aggregator returns when the total mass of
    a phase is negative: for
    the single part of -100 kg in preparation, phase "A" holds -25 kg out of
    -100 kg, which the wording makes 25%, and the aggregator 0.0. *)
Lemma phase_advancement_negative_total :
  ∃ row,
    phase_advancement (recompute_progress negative_table) = [row]
    ∧ phase_PHASE row = "A"
    ∧ (phase_CompletedMass row == -25)%Q
    ∧ (series_sum (TOT_MASS <$> of_phase "A" (recompute_progress negative_table))
       == -100)%Q
    ∧ (pct_as_specified (phase_CompletedMass row)
         (series_sum (TOT_MASS <$> of_phase "A" (recompute_progress negative_table)))
       == 25)%Q
    ∧ (phase_Avancement row == 0)%Q
    ∧ ¬ (phase_Avancement row ==
         pct_as_specified (phase_CompletedMass row)
           (series_sum
              (TOT_MASS <$> of_phase "A" (recompute_progress negative_table))))%Q.
Proof.
  eexists. split; [by vm_compute|]. split_and!; by vm_compute.
Qed.

(** The two-part scenario, by phase: phase "A" holds 100 * 0.25 + 100 * 1.00
    = 125 kg out of 200 kg, that is 62.5%. *)
Example phase_advancement_scenario :
  ∃ row, phase_advancement (recompute_progress scenario_table) = [row]
    ∧ phase_PHASE row = "A"
    ∧ (phase_CompletedMass row == 125)%Q
    ∧ (phase_Avancement row == 62.5)%Q.
Proof. eexists. split; [by vm_compute|]. split_and!; by vm_compute. Qed.

(** ** Assembly rollup *)

Lemma inv_rank_lookup (k : Z) :
  inv_rank !! k =
    if decide (k = 0%Z) then Some "Préparation"
    else if decide (k = 1%Z) then Some "Assemblage"
    else if decide (k = 2%Z) then Some "Traitement de surface"
    else if decide (k = 3%Z) then Some "Finalisation"
    else None.
Proof.
  change inv_rank with
    (<[0%Z := "Préparation"]> (<[1%Z := "Assemblage"]>
      (<[2%Z := "Traitement de surface"]>
        (<[3%Z := "Finalisation"]> (∅ : gmap Z string))))).
  repeat (rewrite lookup_insert; case_decide; subst;
          [ repeat case_decide; congruence | ]).
  rewrite lookup_empty. repeat case_decide; congruence.
Qed.

(** The step shown for the rank of a step is that step; the step shown for
    the rank -1 is "None". *)
Lemma step_of_rank_rank s :
  (s ∈ STEPS_ORDER ∧ step_of_rank (rank s) = s)
  ∨ (rank s = (-1)%Z ∧ step_of_rank (rank s) = "None").
Proof.
  unfold step_of_rank.
  destruct (rank_cases s) as [[-> ->]|[[-> ->]|[[-> ->]|[[-> ->]|[_ ->]]]]];
    rewrite inv_rank_lookup; cbn; rewrite ?STEPS_ORDER_elem; tauto.
Qed.

Lemma py_min_le x l : (py_min x l ≤ x)%Z ∧ Forall (λ y, (py_min x l ≤ y)%Z) l.
Proof.
  unfold py_min. revert x. induction l as [|y l IH]; intros x; cbn [foldl].
  - split; [lia|constructor].
  - destruct (IH (Z.min x y)) as [H1 H2]. split; [lia|].
    constructor; [lia|done].
Qed.

Lemma py_min_elem x l : py_min x l ∈ x :: l.
Proof.
  unfold py_min. revert x. induction l as [|y l IH]; intros x; cbn [foldl].
  - apply list_elem_of_here.
  - specialize (IH (Z.min x y)). apply elem_of_cons in IH as [->|IH].
    + destruct (Z.min_spec x y) as [[_ ->]|[_ ->]];
        [apply list_elem_of_here|apply list_elem_of_further, list_elem_of_here].
    + by do 2 apply list_elem_of_further.
Qed.

(** The rank of a group that has a line is the least rank of its lines. *)
Lemma EtapeRank_agg_min (g : list Row) :
  g ≠ [] →
  Forall (λ r, (EtapeRank_agg (Etape <$> g) ≤ rank (Etape r))%Z) g
  ∧ Exists (λ r, rank (Etape r) = EtapeRank_agg (Etape <$> g)) g.
Proof.
  destruct g as [|r g]; [done|]. intros _.
  unfold EtapeRank_agg. cbn [fmap list_fmap].
  set (x := step_rank_get (Etape r)).
  set (l := step_rank_get <$> (Etape <$> g)).
  destruct (py_min_le x l) as [Hx Hl]. split.
  - constructor; [done|].
    apply Forall_forall. intros r' Hr'.
    rewrite Forall_forall in Hl. apply Hl. subst l.
    by do 2 apply list_elem_of_fmap_2.
  - pose proof (py_min_elem x l) as Hin.
    apply elem_of_cons in Hin as [Hin|Hin].
    + apply Exists_cons_hd. by rewrite Hin.
    + apply Exists_cons_tl. subst l.
      apply list_elem_of_fmap in Hin as [s [Hs Hin]].
      apply list_elem_of_fmap in Hin as [r' [-> Hin]].
      apply Exists_exists. exists r'. split; [done|]. by rewrite Hs.
Qed.

Lemma zip_with_fmap_diag {A B C D} (f : B → C → D) (g : A → B) (h : A → C)
    (l : list A) :
  zip_with f (g <$> l) (h <$> l) = (λ x, f (g x) (h x)) <$> l.
Proof. induction l as [|x l IH]; [done|]. cbn. by f_equal. Qed.

Lemma assembly_table_eq df :
  assembly_table df =
  (λ k, mkAsmRow k.1 k.2
          (series_sum (TOT_MASS <$> members k df))
          (step_of_rank (EtapeRank_agg (Etape <$> members k df))))
    <$> merge_sort pair_le (unique (group_key <$> df)).
Proof.
  unfold assembly_table, assembly_agg, groupby, fillna, series_map.
  rewrite <- !list_fmap_compose.
  by rewrite (zip_with_fmap_diag _ _ _ (merge_sort _ _)).
Qed.

Lemma assembly_table_keys df :
  (λ a, (asm_PHASE a, asm_ASSEMBLY_NO a)) <$> assembly_table df
  = merge_sort pair_le (unique (group_key <$> df)).
Proof.
  rewrite assembly_table_eq, <- list_fmap_compose.
  rewrite <- (list_fmap_id (merge_sort _ _)) at 2.
  apply list_fmap_ext. by intros _ [??] _.
Qed.

Lemma members_nonempty k df : k ∈ group_key <$> df → members k df ≠ [].
Proof.
  intros [r [-> Hr]]%list_elem_of_fmap Hnil.
  assert (Hin : r ∈ members (group_key r) df)
    by by apply list_elem_of_filter.
  rewrite Hnil in Hin. by apply elem_of_nil in Hin.
Qed.


(** C10: a line whose step is none of the four steps of the order (the
    sentinel "None" as much as any other text) has rank -1, strictly below
    the rank of every step and so of the first; taking the line out of the
    table leaves the treated mass of every step as it is, so the line adds to
    none; and in the assembly rollup the line of its assembly shows "None". *)
Theorem unranked_step_excluded (r : Row) :
  Etape r ∉ STEPS_ORDER →
  rank (Etape r) = (-1)%Z
  ∧ Forall (λ S, (rank (Etape r) < rank S)%Z) STEPS_ORDER
  ∧ (∀ df1 df2,
       (λ rows : list StepRow, step_CompletedMass <$> rows)
         <$> step_advancement (df1 ++ r :: df2)
       = (λ rows : list StepRow, step_CompletedMass <$> rows)
           <$> step_advancement (df1 ++ df2))
  ∧ (∀ df, r ∈ df →
       (∃ a, a ∈ assembly_table df
             ∧ (asm_PHASE a, asm_ASSEMBLY_NO a) = group_key r)
       ∧ ∀ a, a ∈ assembly_table df →
              (asm_PHASE a, asm_ASSEMBLY_NO a) = group_key r →
              EtapeAsm a = "None").
Proof.
  intros Hr.
  assert (Hrank : rank (Etape r) = (-1)%Z).
  { destruct (rank_cases (Etape r)) as [[? _]|[[? _]|[[? _]|[[? _]|[_ ->]]]]];
      [(exfalso; apply Hr, STEPS_ORDER_elem; tauto)..|done]. }
  split_and!.
  - done.
  - rewrite Hrank. apply Forall_forall. intros S HS.
    destruct (rank_cases S) as [[_ ->]|[[_ ->]|[[_ ->]|[[_ ->]|[? _]]]]];
      [lia..|done].
  - intros df1 df2. rewrite !step_advancement_eq. cbn [fmap option_fmap option_map].
    f_equal. rewrite <- !list_fmap_compose.
    apply Forall_fmap_ext_1, Forall_forall. intros S HS. cbn.
    by rewrite reached_unranked.
  - intros df Hin.
    assert (Hk : group_key r ∈ group_key <$> df) by by apply list_elem_of_fmap_2.
    split.
    + rewrite <- elem_of_unique, <- (merge_sort_Permutation pair_le) in Hk.
      rewrite <- assembly_table_keys in Hk.
      apply list_elem_of_fmap in Hk as [a [Ha ?]]. by exists a.
    + intros a Ha Hkey. rewrite assembly_table_eq in Ha.
      apply list_elem_of_fmap in Ha as [k [-> _]]. cbn in Hkey. cbn.
      assert (k = group_key r) as -> by (by destruct k).
      assert (Hne : members (group_key r) df ≠ []) by by apply members_nonempty.
      destruct (EtapeRank_agg_min _ Hne) as [Hall Hex].
      rewrite Forall_forall in Hall.
      assert (Hle : (EtapeRank_agg (Etape <$> members (group_key r) df)
                     ≤ -1)%Z).
      { rewrite <- Hrank. apply Hall. by apply list_elem_of_filter. }
      apply Exists_exists in Hex as [r' [_ Hr']]. rewrite <- Hr' in Hle |- *.
      destruct (step_of_rank_rank (Etape r')) as [[Hs _]|[_ ->]]; [|done].
      destruct (rank_cases (Etape r'))
        as [[_ Hk']|[[_ Hk']|[[_ Hk']|[[_ Hk']|[? _]]]]]; [lia..|done].
Qed.

Lemma unranked_step_excluded_witness :
  (Etape sentinel_row ∉ STEPS_ORDER)
  ∧ rank (Etape sentinel_row) = (-1)%Z
  ∧ Forall (λ S, (rank (Etape sentinel_row) < rank S)%Z) STEPS_ORDER.
Proof.
  assert (H : Etape sentinel_row ∉ STEPS_ORDER)
    by (by apply (bool_decide_unpack _)).
  destruct (unranked_step_excluded sentinel_row H) as [Hrank [Hlt _]].
  split; [exact H|]. split; [exact Hrank|exact Hlt].
Defined.

(** ** Schema validator *)

Section ValidatorProperties.

Variable parse_float : string → option Q.
Variable str_of_float : Q → string.
Variable str_of_missing : option string.

Lemma bind_has_column {B} df c (k : bool → M B) σ f :
  heap σ !! df = Some f →
  bind (has_column df c) k σ = k (bool_decide (is_Some (columns f !! c))) σ.
Proof. intros Hf. unfold bind, has_column. by rewrite Hf. Qed.

Lemma bind_get_column {B} df c (k : list cell → M B) σ f col :
  heap σ !! df = Some f → columns f !! c = Some col →
  bind (get_column df c) k σ = k col σ.
Proof. intros Hf Hc. unfold bind, get_column. by rewrite Hf, Hc. Qed.

Lemma bind_set_column {B} df c col (k : unit → M B) σ f :
  heap σ !! df = Some f →
  bind (set_column df c col) k σ =
  k () (mkSession
          (<[df := mkRawFrame (nrows f) (<[c := col]> (columns f))]> (heap σ))
          (displayed_errors σ)).
Proof. intros Hf. unfold bind, set_column. by rewrite Hf. Qed.

(** Filling a column that may be there already. *)
Lemma bind_add_if_absent {B} df c v (k : unit → M B) σ f :
  heap σ !! df = Some f →
  bind (has_column df c)
       (λ present : bool,
          bind (if present then ret () else set_column_scalar df c v) k) σ =
  k () (mkSession
          (<[df := mkRawFrame (nrows f) (add_if_absent c v (nrows f) (columns f))]>
             (heap σ))
          (displayed_errors σ)).
Proof.
  intros Hf. unfold add_if_absent.
  rewrite (bind_has_column _ _ _ _ f Hf).
  destruct (bool_decide (is_Some (columns f !! c))).
  - unfold bind, ret. destruct σ as [h e]. cbn in *.
    rewrite insert_id; [done|]. rewrite Hf. by destruct f.
  - unfold bind, set_column_scalar, set_column. by rewrite Hf.
Qed.

(** The loop over the required columns: it stops at the first one the frame
    lacks, after displaying the message for it, and otherwise does nothing. *)
Lemma check_required_run df σ f (l : list string) :
  heap σ !! df = Some f →
  for_each l (λ c,
    present ←← has_column df c;
    if present then ret ()
    else (st_error (missing_message c) ;;; st_stop)) σ =
  match head (filter (λ c, columns f !! c = None) l) with
  | None => (Returned (), σ)
  | Some c => (Stopped, mkSession (heap σ)
                          (displayed_errors σ ++ [missing_message c]))
  end.
Proof.
  intros Hf. induction l as [|c l IH]; [done|].
  cbn [for_each]. unfold bind at 1. rewrite (bind_has_column _ _ _ _ f Hf).
  rewrite filter_cons. destruct (columns f !! c) as [col|] eqn:Hc.
  - rewrite bool_decide_true by eauto. rewrite decide_False by done.
    unfold ret. exact IH.
  - rewrite bool_decide_false by (by intros [??]). rewrite decide_True by done.
    done.
Qed.

Lemma absent_head_None f :
  head (absent f) = None ↔ Forall (λ c, is_Some (columns f !! c)) required.
Proof.
  rewrite head_None, Forall_forall. unfold absent. split.
  - intros Hnil c Hc. apply not_eq_None_Some. intros Hn.
    by apply (filter_nil_not_elem_of _ _ c Hnil Hn).
  - intros Hall. induction required as [|c l IH]; [done|].
    rewrite filter_cons, decide_False.
    + apply IH. intros c' Hc'. apply Hall. by apply list_elem_of_further.
    + apply not_eq_None_Some, Hall, list_elem_of_here.
Qed.

Lemma absent_head_Some f c :
  head (absent f) = Some c → c ∈ required ∧ columns f !! c = None.
Proof.
  intros Hc%head_Some_elem_of. unfold absent in Hc.
  apply list_elem_of_filter in Hc. tauto.
Qed.

Lemma absent_head_exists f :
  (∃ c, c ∈ required ∧ columns f !! c = None) ↔ is_Some (head (absent f)).
Proof.
  rewrite head_is_Some. unfold absent. split.
  - intros [c [Hc Hn]] Hnil. by apply (filter_nil_not_elem_of _ _ c Hnil Hn).
  - intros Hne. destruct (filter _ required) as [|c l] eqn:Hfil; [done|].
    exists c. apply and_comm.
    apply (list_elem_of_filter (λ c, columns f !! c = None)).
    rewrite Hfil. apply list_elem_of_here.
Qed.

(** The run of the validator on a frame that lacks a required column. *)
Lemma ensure_columns_stops σ df f c :
  heap σ !! df = Some f → head (absent f) = Some c →
  ensure_columns parse_float str_of_float str_of_missing df σ =
  (Stopped, mkSession (heap σ) (displayed_errors σ ++ [missing_message c])).
Proof.
  intros Hf Hc. unfold ensure_columns. unfold bind at 1.
  rewrite (check_required_run _ _ f _ Hf). fold (absent f). by rewrite Hc.
Qed.

(** The run of the validator on a frame that has the required columns. *)
Lemma ensure_columns_returns σ df f phase mass :
  heap σ !! df = Some f → head (absent f) = None →
  columns f !! "PHASE" = Some phase →
  columns f !! "TOT MASS (Kg)" = Some mass →
  ensure_columns parse_float str_of_float str_of_missing df σ =
  (Returned df,
   mkSession (<[df := validated parse_float str_of_float str_of_missing f phase mass]> (heap σ))
             (displayed_errors σ)).
Proof.
  intros Hf Habs Hphase Hmass. unfold ensure_columns. unfold bind at 1.
  rewrite (check_required_run _ _ f _ Hf). fold (absent f). rewrite Habs.
  rewrite (bind_get_column _ _ _ _ f phase Hf Hphase).
  rewrite (bind_set_column _ _ _ _ _ f Hf).
  erewrite bind_get_column;
    [|cbn; apply lookup_insert_eq|cbn; by rewrite lookup_insert_ne].
  erewrite bind_set_column; [|cbn; apply lookup_insert_eq].
  do 3 (erewrite bind_add_if_absent; [|cbn; apply lookup_insert_eq]).
  unfold ret. cbn. rewrite !insert_insert_eq.
  unfold validated, fillna. by rewrite <- !list_fmap_compose.
Qed.

Lemma lookup_add_if_absent c v n (cols : gmap string (list cell)) c' :
  add_if_absent c v n cols !! c' =
    if decide (c = c') then Some (default (replicate n v) (cols !! c))
    else cols !! c'.
Proof.
  unfold add_if_absent. case_bool_decide as Hc; case_decide as Hcc'; subst.
  - by destruct Hc as [col ->].
  - done.
  - apply eq_None_not_Some in Hc. rewrite Hc. apply lookup_insert_eq.
  - by rewrite lookup_insert_ne.
Qed.

(** The columns of the validated frame, one by one. *)
Lemma validated_lookup f phase mass c :
  columns f !! "PHASE" = Some phase →
  columns f !! "TOT MASS (Kg)" = Some mass →
  columns (validated parse_float str_of_float str_of_missing f phase mass) !! c =
    if decide (c = "PHASE") then Some (astype_str str_of_float str_of_missing <$> phase)
    else if decide (c = "TOT MASS (Kg)")
      then Some (coerce_mass parse_float <$> mass)
    else if decide (c = "Etape")
      then Some (default (replicate (nrows f) (CStr "None")) (columns f !! c))
    else if decide (c = "RowProgress%")
      then Some (default (replicate (nrows f) (CNum 0.0%Q)) (columns f !! c))
    else if decide (c = "CompletedMass_Row")
      then Some (default (replicate (nrows f) (CNum 0.0%Q)) (columns f !! c))
    else columns f !! c.
Proof.
  intros Hphase Hmass. unfold validated. cbn [columns].
  rewrite !lookup_add_if_absent.
  repeat (case_decide; subst; try done);
    rewrite ?lookup_add_if_absent; repeat (case_decide; try done);
    rewrite ?lookup_insert_eq, ?lookup_insert_ne by done;
    rewrite ?lookup_insert_eq, ?lookup_insert_ne by done; done.
Qed.

(** C7: the validator fails exactly when the frame lacks one of the four
    required columns "PHASE", "ASSEMBLY NO.", "PART NO.", "TOT MASS (Kg)"; it
    then displays the message "⚠️ Colonne manquante dans Excel : 'c'" for the
    first required column c the frame lacks, stops the script, and has done
    nothing to the frame.  When the four columns are there it returns, and
    cell by cell the phase column then holds the texts it held, the numbers
    it held printed as texts, and for an empty cell what [astype(str)] makes
    of it; the mass column holds the numbers it held, the number read from a
    text that is one, and 0.0 for any other text and for an empty cell; the
    step column is the one the frame had, or "None" on every line when it
    had none. *)
Theorem ensure_columns_validates (σ : session) (df : ref) (f : RawFrame) :
  heap σ !! df = Some f →
  ((ensure_columns parse_float str_of_float str_of_missing df σ).1 = Stopped
     ↔ ∃ c, c ∈ ["PHASE"; "ASSEMBLY NO."; "PART NO."; "TOT MASS (Kg)"]
            ∧ columns f !! c = None)
  ∧ (∀ c,
       head (filter (λ c, columns f !! c = None)
                    ["PHASE"; "ASSEMBLY NO."; "PART NO."; "TOT MASS (Kg)"])
       = Some c →
       ensure_columns parse_float str_of_float str_of_missing df σ =
         (Stopped,
          mkSession (heap σ)
            (displayed_errors σ
             ++ ["⚠️ Colonne manquante dans Excel : '" +:+ c +:+ "'"])))
  ∧ (Forall (λ c, is_Some (columns f !! c))
            ["PHASE"; "ASSEMBLY NO."; "PART NO."; "TOT MASS (Kg)"] →
       ∃ f' phase phase' mass mass',
         ensure_columns parse_float str_of_float str_of_missing df σ =
           (Returned df,
            mkSession (<[df := f']> (heap σ)) (displayed_errors σ))
         ∧ nrows f' = nrows f
         ∧ columns f !! "PHASE" = Some phase
         ∧ columns f' !! "PHASE" = Some phase'
         ∧ Forall2 (λ c c',
               match c with
               | CStr s => c' = CStr s
               | CNum q => c' = CStr (str_of_float q)
               | CNaN => c' = match str_of_missing with
                              | Some s => CStr s
                              | None => CNaN
                              end
               end) phase phase'
         ∧ columns f !! "TOT MASS (Kg)" = Some mass
         ∧ columns f' !! "TOT MASS (Kg)" = Some mass'
         ∧ Forall2 (λ c c',
               match c with
               | CNum q => c' = CNum q
               | CStr s => c' = CNum (match parse_float s with
                                      | Some q => q
                                      | None => 0.0%Q
                                      end)
               | CNaN => c' = CNum 0.0%Q
               end) mass mass'
         ∧ columns f' !! "Etape" =
             Some (match columns f !! "Etape" with
                   | Some col => col
                   | None => replicate (nrows f) (CStr "None")
                   end)).
Proof.
  intros Hf. change ["PHASE"; "ASSEMBLY NO."; "PART NO."; "TOT MASS (Kg)"]
    with required. fold (absent f). split_and!.
  - destruct (head (absent f)) as [c|] eqn:Hhead.
    + rewrite (ensure_columns_stops _ _ _ _ Hf Hhead).
      apply absent_head_Some in Hhead. split; eauto.
    + pose proof (proj1 (absent_head_None f) Hhead) as Hall.
      rewrite Forall_forall in Hall.
      destruct (Hall "PHASE") as [phase Hphase]; [set_solver|].
      destruct (Hall "TOT MASS (Kg)") as [mass Hmass]; [set_solver|].
      rewrite (ensure_columns_returns _ _ _ _ _ Hf Hhead Hphase Hmass).
      split; [done|]. intros Hex%absent_head_exists.
      rewrite Hhead in Hex. by destruct Hex.
  - intros c Hhead. by apply (ensure_columns_stops _ _ f).
  - intros Hall. pose proof (proj2 (absent_head_None f) Hall) as Hhead.
    rewrite Forall_forall in Hall.
    destruct (Hall "PHASE") as [phase Hphase]; [set_solver|].
    destruct (Hall "TOT MASS (Kg)") as [mass Hmass]; [set_solver|].
    exists (validated parse_float str_of_float str_of_missing f phase mass),
      phase, (astype_str str_of_float str_of_missing <$> phase),
      mass, (coerce_mass parse_float <$> mass).
    split_and!.
    + by apply ensure_columns_returns.
    + done.
    + done.
    + by rewrite (validated_lookup _ _ _ _ Hphase Hmass).
    + apply Forall2_fmap_r, Forall_Forall2_diag, Forall_forall.
      by intros [s|q|] _.
    + done.
    + by rewrite (validated_lookup _ _ _ _ Hphase Hmass).
    + apply Forall2_fmap_r, Forall_Forall2_diag, Forall_forall.
      by intros [s|q|] _.
    + rewrite (validated_lookup _ _ _ _ Hphase Hmass). cbn.
      by destruct (columns f !! "Etape").
Qed.

(** C8 (as amended): on a frame that has the required columns the validator
    makes no copy: it returns the reference it was given, and the frame at
    that reference has been updated in place.  The phase and mass columns
    hold the coerced cells, the step and the two progress columns have been
    filled where the frame had none, every other column and the number of
    lines are as before, no other object of the session has changed and
    nothing has been displayed. *)
Theorem ensure_columns_in_place (σ : session) (df : ref) (f : RawFrame) :
  heap σ !! df = Some f →
  Forall (λ c, is_Some (columns f !! c)) required →
  ∃ f',
    ensure_columns parse_float str_of_float str_of_missing df σ =
      (Returned df, mkSession (<[df := f']> (heap σ)) (displayed_errors σ))
    ∧ nrows f' = nrows f
    ∧ (∀ c, c ∉ written_columns → columns f' !! c = columns f !! c)
    ∧ columns f' !! "PHASE" =
        (λ col, astype_str str_of_float str_of_missing <$> col) <$> columns f !! "PHASE"
    ∧ columns f' !! "TOT MASS (Kg)" =
        (λ col, coerce_mass parse_float <$> col) <$> columns f !! "TOT MASS (Kg)"
    ∧ columns f' !! "Etape" =
        Some (default (replicate (nrows f) (CStr "None"))
                      (columns f !! "Etape"))
    ∧ columns f' !! "RowProgress%" =
        Some (default (replicate (nrows f) (CNum 0.0%Q))
                      (columns f !! "RowProgress%"))
    ∧ columns f' !! "CompletedMass_Row" =
        Some (default (replicate (nrows f) (CNum 0.0%Q))
                      (columns f !! "CompletedMass_Row")).
Proof.
  intros Hf Hall. pose proof (proj2 (absent_head_None f) Hall) as Hhead.
  rewrite Forall_forall in Hall.
  destruct (Hall "PHASE") as [phase Hphase]; [set_solver|].
  destruct (Hall "TOT MASS (Kg)") as [mass Hmass]; [set_solver|].
  exists (validated parse_float str_of_float str_of_missing f phase mass).
  split_and!.
  - by apply ensure_columns_returns.
  - done.
  - intros c Hc. rewrite (validated_lookup _ _ _ _ Hphase Hmass).
    unfold written_columns in Hc.
    repeat (case_decide; [subst; exfalso; apply Hc; set_solver|]). done.
  - rewrite (validated_lookup _ _ _ _ Hphase Hmass), Hphase. done.
  - rewrite (validated_lookup _ _ _ _ Hphase Hmass), Hmass. done.
  - rewrite (validated_lookup _ _ _ _ Hphase Hmass). done.
  - rewrite (validated_lookup _ _ _ _ Hphase Hmass). done.
  - rewrite (validated_lookup _ _ _ _ Hphase Hmass). done.
Qed.

End ValidatorProperties.

Lemma ensure_columns_validates_witness :
  heap lacking_session !! 0%nat = Some lacking_sheet
  ∧ head (filter (λ c, columns lacking_sheet !! c = None)
                 ["PHASE"; "ASSEMBLY NO."; "PART NO."; "TOT MASS (Kg)"])
    = Some "ASSEMBLY NO."
  ∧ ensure_columns no_parse no_print missing_as_nan 0%nat lacking_session =
      (Stopped,
       mkSession (heap lacking_session)
         ["⚠️ Colonne manquante dans Excel : 'ASSEMBLY NO.'"]).
Proof.
  assert (H : heap lacking_session !! 0%nat = Some lacking_sheet)
    by (by vm_compute).
  assert (Hc : head (filter (λ c, columns lacking_sheet !! c = None)
                 ["PHASE"; "ASSEMBLY NO."; "PART NO."; "TOT MASS (Kg)"])
               = Some "ASSEMBLY NO.") by (by vm_compute).
  split; [exact H|]. split; [exact Hc|].
  exact (proj1 (proj2 (ensure_columns_validates no_parse no_print
                         missing_as_nan lacking_session 0%nat lacking_sheet H))
           "ASSEMBLY NO." Hc).
Defined.

Lemma ensure_columns_in_place_witness :
  heap bare_session !! 0%nat = Some bare_sheet
  ∧ Forall (λ c, is_Some (columns bare_sheet !! c)) required
  ∧ ∃ f',
      ensure_columns no_parse no_print missing_as_nan 0%nat bare_session =
        (Returned 0%nat,
         mkSession (<[0%nat := f']> (heap bare_session))
                   (displayed_errors bare_session))
      ∧ nrows f' = nrows bare_sheet.
Proof.
  assert (H : heap bare_session !! 0%nat = Some bare_sheet) by (by vm_compute).
  assert (Hall : Forall (λ c, is_Some (columns bare_sheet !! c)) required).
  { unfold required. repeat (apply Forall_cons_2; [by vm_compute; eexists|]).
    apply Forall_nil_2. }
  split; [exact H|]. split; [exact Hall|].
  destruct (ensure_columns_in_place no_parse no_print missing_as_nan
              bare_session 0%nat bare_sheet H Hall) as [f' [Hrun [Hn _]]].
  exists f'. by split.
Defined.

(** Against C8 as worded: the validator changes the very frame it is given.
    After the call on the sheet that has the four required columns and
    nothing else, the frame at the argument's address is no longer the
    sheet; it has a step column. *)
Lemma ensure_columns_mutates_argument :
  Forall (λ c, is_Some (columns bare_sheet !! c)) required
  ∧ heap bare_session !! 0%nat = Some bare_sheet
  ∧ columns bare_sheet !! "Etape" = None
  ∧ ∃ σ' f',
      ensure_columns no_parse no_print missing_as_nan 0%nat bare_session = (Returned 0%nat, σ')
      ∧ heap σ' !! 0%nat = Some f'
      ∧ columns f' !! "Etape" = Some [CStr "None"]
      ∧ heap σ' !! 0%nat ≠ heap bare_session !! 0%nat.
Proof.
  split_and!.
  - unfold required. repeat (apply Forall_cons_2; [by vm_compute; eexists|]).
    apply Forall_nil_2.
  - by vm_compute.
  - by vm_compute.
  - eexists _, _. split_and!.
    + by vm_compute.
    + by vm_compute.
    + by vm_compute.
    + intros Heq. vm_compute in Heq. discriminate Heq.
Qed.

(** * The aggregators in float64 *)

(** ** The fuel of numpy's sum is enough *)

Lemma add_chunks_rest (fuel : nat) (r a : list PrimFloat.float) :
  length a ≤ fuel → length (F64.add_chunks fuel r a).2 < 8.
Proof.
  revert r a. induction fuel as [|fuel IH]; intros r a Hlen;
    cbn [F64.add_chunks].
  - cbn. lia.
  - destruct (8 <=? length a) eqn:Hge.
    + apply Nat.leb_le in Hge. apply IH. rewrite length_drop. lia.
    + apply Nat.leb_gt in Hge. done.
Qed.

Lemma pairwise_sum_fuel (fuel fuel' : nat) (a : list PrimFloat.float) :
  length a ≤ fuel → length a ≤ fuel' →
  F64.pairwise_sum fuel a = F64.pairwise_sum fuel' a.
Proof.
  revert fuel' a. induction fuel as [|fuel IH]; intros fuel' a Hf Hf'.
  - destruct a; [|cbn in Hf; lia]. by destruct fuel'.
  - destruct fuel' as [|fuel'].
    { destruct a; [done|cbn in Hf'; lia]. }
    cbn [F64.pairwise_sum].
    destruct (length a <? 8) eqn:H8; [done|].
    destruct (length a <=? 128) eqn:H128; [done|].
    apply Nat.leb_gt in H128.
    assert (Hn2 : 0 < length a / 2 - (length a / 2) mod 8 < length a).
    { pose proof (Nat.mod_upper_bound (length a / 2) 8).
      assert (64 ≤ length a / 2) by (apply Nat.div_le_lower_bound; lia).
      assert (length a / 2 < length a) by (apply Nat.div_lt; lia).
      lia. }
    f_equal; apply IH; rewrite ?length_take, ?length_drop; lia.
Qed.


(** ** Step aggregator *)







(** ** Phase aggregator *)



(** The groups of a table by a key, taken together over duplicate-free keys
    that cover the table, are the lines of the table. *)
Lemma concat_groups_Permutation {A K} `{EqDecision K} (key : A → K)
    (keys : list K) (l : list A) :
  NoDup keys → Forall (λ x, key x ∈ keys) l →
  concat ((λ k, filter (λ x, key x = k) l) <$> keys) ≡ₚ l.
Proof.
  intros Hnd. induction 1 as [|x l Hx _ IH].
  - induction keys as [|k keys IHk]; [done|].
    apply NoDup_cons in Hnd as [_ Hnd]. cbn. by apply IHk.
  - apply list_elem_of_split in Hx as (k1 & k2 & Hkeys).
    rewrite Hkeys in Hnd, IH |- *.
    apply NoDup_app in Hnd as (_ & Hk1 & Hnd).
    apply NoDup_cons in Hnd as [Hk2 _].
    assert (Hfresh : ∀ ks : list K, key x ∉ ks →
      (λ k, filter (λ y, key y = k) (x :: l)) <$> ks
      = (λ k, filter (λ y, key y = k) l) <$> ks).
    { intros ks Hks. apply list_fmap_ext. intros i k Hk.
      rewrite filter_cons, decide_False; [done|].
      intros Heq. apply Hks. rewrite Heq.
      by apply list_elem_of_lookup_2 in Hk. }
    rewrite !fmap_app, !fmap_cons, !concat_app, !concat_cons in IH |- *.
    rewrite (Hfresh k1), (Hfresh k2); [|done|].
    + rewrite filter_cons, decide_True by done.
      cbn [app]. rewrite <- Permutation_middle. by rewrite IH.
    + intros Hin. by apply (Hk1 (key x)); [|left].
Qed.




(** * Further properties of the engine *)

(** ** Ranges and guards of the percentages *)


Lemma pct_of_zero part whole : (whole == 0)%Q → pct_of part whole = 0.0%Q.
Proof.
  intros Hw. unfold pct_of. destruct (Qltb 0 whole) eqn:Hlt; [|done].
  apply Qltb_lt in Hlt. rewrite Hw in Hlt. by apply Qlt_irrefl in Hlt.
Qed.


Lemma series_sum_zero {A} (f : A → Q) (l : list A) :
  Forall (λ x, (f x == 0)%Q) l → (series_sum (f <$> l) == 0)%Q.
Proof.
  induction 1 as [|x l Hx _ IH]; cbn [fmap list_fmap series_sum foldr].
  - reflexivity.
  - fold (series_sum (f <$> l)). rewrite Hx, IH. ring.
Qed.






(** X4: when the table has lines and every part weighs nothing, no division
    is made: the step aggregation returns its line for every step of the
    order with the percentage 0.0, every percentage of the phase aggregation
    is 0.0, and so is the global percentage. *)
Theorem zero_masses_pct (df : DataFrame) :
  df ≠ [] →
  zero_masses df →
  (∃ rows, step_advancement df = Some rows
     ∧ Forall2 (λ S row, step_Etape row = S ∧ step_Avancement row = 0.0%Q)
               STEPS_ORDER rows)
  ∧ Forall (λ row, phase_Avancement row = 0.0%Q) (phase_advancement df)
  ∧ phase_PHASE <$> phase_advancement df = sorted (unique (PHASE <$> df))
  ∧ progress_global df = 0.0%Q.
Proof.
  intros _ Hdf.
  assert (Hsub : ∀ (P : Row → Prop) `{∀ r, Decision (P r)},
            (series_sum (TOT_MASS <$> filter P df) == 0)%Q).
  { intros P ?. apply series_sum_zero. unfold zero_masses in Hdf.
    rewrite Forall_forall in Hdf. apply Forall_forall.
    intros r [_ Hr]%list_elem_of_filter. by apply Hdf. }
  assert (Htot : (series_sum (TOT_MASS <$> df) == 0)%Q)
    by by apply series_sum_zero.
  split_and!.
  - eexists. split; [apply step_advancement_eq|].
    apply Forall2_fmap_r, Forall_Forall2_diag, Forall_forall. intros S _. cbn.
    split; [done|]. by apply pct_of_zero.
  - rewrite phase_advancement_eq. apply Forall_fmap, Forall_forall.
    intros p _. cbn. apply pct_of_zero, Hsub.
  - apply phase_advancement_phases.
  - by apply pct_of_zero.
Qed.

Lemma zero_masses_pct_witness :
  weightless_table ≠ []
  ∧ zero_masses weightless_table
  ∧ progress_global weightless_table = 0.0%Q.
Proof.
  assert (Hne : weightless_table ≠ []) by done.
  assert (H : zero_masses weightless_table).
  { unfold zero_masses, weightless_table.
    repeat (apply Forall_cons_2; [by vm_compute|]). apply Forall_nil_2. }
  split; [exact Hne|]. split; [exact H|].
  exact (proj2 (proj2 (proj2 (zero_masses_pct weightless_table Hne H)))).
Defined.

(** ** Aggregations and the derived columns *)

Lemma filter_through_fmap {A} (g : A → A) (P : A → Prop)
    `{∀ x, Decision (P x)} (l : list A) :
  (∀ x, P (g x) ↔ P x) → filter P (g <$> l) = g <$> filter P l.
Proof.
  intros Hg. induction l as [|x l IH]; [done|].
  cbn [fmap list_fmap]. rewrite !filter_cons.
  destruct (Hg x) as [Hg1 Hg2].
  destruct (decide (P (g x))) as [HP|HP], (decide (P x)) as [HP'|HP'];
    [cbn; by f_equal | tauto | tauto | done].
Qed.

(** What the calculator leaves of a line: everything but the two derived
    columns. *)
Lemma recompute_progress_keeps {B} (f : Row → B) df :
  (∀ r p c, f (mkRow (PHASE r) (ASSEMBLY_NO r) (PART_NO r) (TOT_MASS r)
                     (Etape r) p c) = f r) →
  f <$> recompute_progress df = f <$> df.
Proof.
  intros Hf. rewrite recompute_progress_fmap, <- list_fmap_compose.
  apply list_fmap_ext. intros _ r _. cbn. apply Hf.
Qed.

Lemma recompute_progress_filter {B} (f : Row → B) (P : Row → Prop)
    `{∀ r, Decision (P r)} df :
  (∀ r p c, f (mkRow (PHASE r) (ASSEMBLY_NO r) (PART_NO r) (TOT_MASS r)
                     (Etape r) p c) = f r) →
  (∀ r p c, P (mkRow (PHASE r) (ASSEMBLY_NO r) (PART_NO r) (TOT_MASS r)
                     (Etape r) p c) ↔ P r) →
  f <$> filter P (recompute_progress df) = f <$> filter P df.
Proof.
  intros Hf HP. rewrite recompute_progress_fmap.
  rewrite filter_through_fmap by (intros r; apply HP).
  rewrite <- list_fmap_compose. apply list_fmap_ext. intros _ r _. apply Hf.
Qed.

(** X5: the step aggregation and the assembly rollup read the masses, the
    steps and the keys only: computing them on the table whose progress has
    been recomputed gives what they give on the table itself. *)
Theorem aggregations_ignore_progress (df : DataFrame) :
  step_advancement (recompute_progress df) = step_advancement df
  ∧ assembly_table (recompute_progress df) = assembly_table df.
Proof.
  split.
  - rewrite !step_advancement_eq. f_equal. unfold total_mass.
    rewrite (recompute_progress_keeps TOT_MASS) by done.
    apply list_fmap_ext. intros _ S _. unfold reached.
    by rewrite (recompute_progress_filter TOT_MASS) by done.
  - rewrite !assembly_table_eq.
    rewrite (recompute_progress_keeps group_key) by done.
    apply list_fmap_ext. intros _ k _. unfold members.
    rewrite (recompute_progress_filter TOT_MASS) by done.
    by rewrite (recompute_progress_filter Etape) by done.
Qed.



(** ** More on the assembly rollup *)

(** X8: every line of the table is counted in one assembly of the rollup
    and one only: the lines of the assemblies, taken together in the order of
    the rollup, are the lines of the table. *)
Theorem assembly_groups_partition (df : DataFrame) :
  concat ((λ a, members (asm_PHASE a, asm_ASSEMBLY_NO a) df)
            <$> assembly_table df)
  ≡ₚ df.
Proof.
  rewrite (list_fmap_compose (λ a, (asm_PHASE a, asm_ASSEMBLY_NO a))
             (λ k, members k df)).
  rewrite assembly_table_keys.
  apply (concat_groups_Permutation group_key).
  - rewrite merge_sort_Permutation. apply NoDup_unique.
  - apply Forall_forall. intros r Hr.
    rewrite merge_sort_Permutation, elem_of_unique.
    by apply list_elem_of_fmap_2.
Qed.

(** Only the last step has rank 3 or more. *)
Lemma rank_last_step s : (3 ≤ rank s)%Z ↔ s = "Finalisation".
Proof.
  split.
  - intros Hs.
    destruct (rank_cases s) as [[_ Hr]|[[_ Hr]|[[_ Hr]|[[Hf _]|[_ Hr]]]]];
      [lia..|exact Hf|lia].
  - intros ->. change (rank "Finalisation") with 3%Z. lia.
Qed.

(** X9: an assembly is shown at a step of rank k or more exactly when every
    one of its parts has rank k or more; so it is shown at "Finalisation"
    exactly when all its parts are. *)
Theorem assembly_reaches_with_all_parts (df : DataFrame) :
  Forall (λ a,
      let g := members (asm_PHASE a, asm_ASSEMBLY_NO a) df in
      (∀ k : Z, (k ≤ rank (EtapeAsm a))%Z
                ↔ Forall (λ r, (k ≤ rank (Etape r))%Z) g)
      ∧ (EtapeAsm a = "Finalisation"
         ↔ Forall (λ r, Etape r = "Finalisation") g))
    (assembly_table df).
Proof.
  rewrite assembly_table_eq. apply Forall_fmap, Forall_forall.
  intros [p n] Hk. rewrite merge_sort_Permutation, elem_of_unique in Hk.
  cbn. pose proof (members_nonempty _ _ Hk) as Hne.
  destruct (EtapeRank_agg_min _ Hne) as [Hall Hex].
  set (m := EtapeRank_agg (Etape <$> members (p, n) df)) in *.
  apply Exists_exists in Hex as [r0 [Hr0 Hm]].
  assert (Hrank : rank (step_of_rank m) = m).
  { rewrite <- Hm.
    destruct (step_of_rank_rank (Etape r0)) as [[_ ->]|[Hr ->]]; [done|].
    by rewrite Hr. }
  assert (Hreach : ∀ k : Z, (k ≤ m)%Z
            ↔ Forall (λ r, (k ≤ rank (Etape r))%Z) (members (p, n) df)).
  { intros k. rewrite Forall_forall in Hall. split.
    - intros Hkm. apply Forall_forall. intros r Hr.
      specialize (Hall r Hr). lia.
    - intros Hk'. rewrite Forall_forall in Hk'. rewrite <- Hm. by apply Hk'. }
  pose proof rank_last_step as Hfin.
  split.
  - intros k. by rewrite Hrank.
  - rewrite <- Hfin, Hrank, (Hreach 3%Z).
    split; intros H; (eapply Forall_impl; [exact H|]); intros r; apply Hfin.
Qed.

(** ** The order of the assemblies *)

Lemma compare_Gt_lt a b : String.compare a b = Gt ↔ str_lt b a.
Proof.
  unfold str_lt. rewrite (String.compare_antisym b a).
  destruct (String.compare a b); cbn; split; done.
Qed.

Lemma pair_le_lt_eq a b : pair_le a b ↔ pair_lt a b ∨ a = b.
Proof.
  unfold pair_le, pair_leb, pair_lt. destruct a as [a1 a2], b as [b1 b2]. cbn.
  destruct (String.compare a1 b1) eqn:Hc.
  - apply String.compare_eq_iff in Hc as ->.
    fold (str_le a2 b2). rewrite str_le_lt_eq. split.
    + intros [?| ->]; [left; right|right]; done.
    + intros [[?|[_ ?]]|[= ->]]; [by apply str_lt_irrefl in H|by left|by right].
  - split; [by left; left|done].
  - apply compare_Gt_lt in Hc. split; [done|].
    intros [[?|[-> _]]|[= -> _]].
    + by apply (str_lt_irrefl a1), (str_lt_trans _ b1).
    + by apply str_lt_irrefl in Hc.
    + by apply str_lt_irrefl in Hc.
Qed.

Lemma pair_lt_trans a b c : pair_lt a b → pair_lt b c → pair_lt a c.
Proof.
  unfold pair_lt. intros [H1|[H1 H2]] [H3|[H3 H4]].
  - left. by apply (str_lt_trans _ b.1).
  - left. by rewrite <- H3.
  - left. by rewrite H1.
  - right. split; [congruence|]. by apply (str_lt_trans _ b.2).
Qed.

#[local] Instance pair_le_total : Total pair_le.
Proof.
  intros a b. rewrite !pair_le_lt_eq. unfold pair_lt.
  destruct a as [a1 a2], b as [b1 b2]. cbn.
  destruct (String.compare a1 b1) eqn:H1.
  - apply String.compare_eq_iff in H1 as ->.
    destruct (String.compare a2 b2) eqn:H2.
    + apply String.compare_eq_iff in H2 as ->. left. by right.
    + left. left. by right.
    + apply compare_Gt_lt in H2. right. left. by right.
  - left. left. by left.
  - apply compare_Gt_lt in H1. right. left. by left.
Qed.

#[local] Instance pair_le_trans : Transitive pair_le.
Proof.
  intros a b c. rewrite !pair_le_lt_eq.
  intros [Hab| ->] [Hbc| ->]; eauto using pair_lt_trans.
Qed.

(** X10: the lines of the assembly rollup come in strictly ascending order
    of the pair of phase and assembly number, whatever the order of the
    lines of the table. *)
Theorem assembly_table_sorted (df : DataFrame) :
  StronglySorted pair_lt
    ((λ a, (asm_PHASE a, asm_ASSEMBLY_NO a)) <$> assembly_table df).
Proof.
  rewrite assembly_table_keys.
  apply (StronglySorted_strict pair_le).
  - intros a b Hab Hne. apply pair_le_lt_eq in Hab as [?|?]; done.
  - apply StronglySorted_merge_sort; apply _.
  - rewrite merge_sort_Permutation. apply NoDup_unique.
Qed.

(** ** More on the schema validator *)

Section ValidatorInvariants.

Variable parse_float : string → option Q.
Variable str_of_float : Q → string.
Variable str_of_missing : option string.

Lemma RawFrame_eq (a b : RawFrame) :
  nrows a = nrows b → columns a = columns b → a = b.
Proof. destruct a, b. cbn. by intros -> ->. Qed.

Lemma astype_str_twice (col : list cell) :
  astype_str str_of_float str_of_missing
    <$> (astype_str str_of_float str_of_missing <$> col)
  = astype_str str_of_float str_of_missing <$> col.
Proof.
  rewrite <- list_fmap_compose. apply list_fmap_ext.
  intros _ [s|q|] _; cbn; [done..|by destruct str_of_missing].
Qed.

Lemma coerce_mass_twice (col : list cell) :
  coerce_mass parse_float <$> (coerce_mass parse_float <$> col)
  = coerce_mass parse_float <$> col.
Proof.
  rewrite <- list_fmap_compose. apply list_fmap_ext. by intros _ [s|q|] _.
Qed.

(** The columns the page works with. *)
Lemma validated_has_columns f phase mass :
  columns f !! "PHASE" = Some phase →
  columns f !! "TOT MASS (Kg)" = Some mass →
  Forall (λ c, is_Some (columns f !! c)) required →
  Forall (λ c, is_Some
                 (columns (validated parse_float str_of_float str_of_missing f phase mass) !! c))
         (required ++ ["Etape"; "RowProgress%"; "CompletedMass_Row"]).
Proof.
  intros Hphase Hmass Hreq. apply Forall_forall. intros c Hc.
  rewrite (validated_lookup _ _ _ _ _ _ _ Hphase Hmass).
  repeat (case_decide; [by eexists|]).
  rewrite Forall_forall in Hreq. apply Hreq.
  apply elem_of_app in Hc as [Hc|Hc]; [done|].
  rewrite !elem_of_cons, elem_of_nil in Hc.
  destruct Hc as [->|[->|[->|[]]]]; done.
Qed.

(** A frame that has been validated is left as it is by the validator. *)
Lemma validated_fixed f phase mass :
  columns f !! "PHASE" = Some phase →
  columns f !! "TOT MASS (Kg)" = Some mass →
  validated parse_float str_of_float str_of_missing
    (validated parse_float str_of_float str_of_missing f phase mass)
    (astype_str str_of_float str_of_missing <$> phase) (coerce_mass parse_float <$> mass)
  = validated parse_float str_of_float str_of_missing f phase mass.
Proof.
  intros Hphase Hmass.
  set (v := validated parse_float str_of_float str_of_missing f phase mass).
  assert (Hvp : columns v !! "PHASE" = Some (astype_str str_of_float str_of_missing <$> phase))
    by by (unfold v; rewrite (validated_lookup _ _ _ _ _ _ _ Hphase Hmass)).
  assert (Hvm : columns v !! "TOT MASS (Kg)"
                = Some (coerce_mass parse_float <$> mass))
    by by (unfold v; rewrite (validated_lookup _ _ _ _ _ _ _ Hphase Hmass)).
  apply RawFrame_eq; [done|]. apply map_eq. intros c.
  rewrite (validated_lookup _ _ _ _ _ _ _ Hvp Hvm).
  repeat case_decide; subst.
  - by rewrite Hvp, astype_str_twice.
  - by rewrite Hvm, coerce_mass_twice.
  - unfold v. by rewrite (validated_lookup _ _ _ _ _ _ _ Hphase Hmass).
  - unfold v. by rewrite (validated_lookup _ _ _ _ _ _ _ Hphase Hmass).
  - unfold v. by rewrite (validated_lookup _ _ _ _ _ _ _ Hphase Hmass).
  - done.
Qed.

(** X11: validating twice is validating once: on a frame that has the
    required columns, a second call on the same reference returns it again
    and leaves the whole session as the first call left it. *)
Theorem ensure_columns_idempotent (σ : session) (df : ref) (f : RawFrame) :
  heap σ !! df = Some f →
  Forall (λ c, is_Some (columns f !! c)) required →
  ∃ σ',
    ensure_columns parse_float str_of_float str_of_missing df σ = (Returned df, σ')
    ∧ ensure_columns parse_float str_of_float str_of_missing df σ' = (Returned df, σ').
Proof.
  intros Hf Hall. pose proof (proj2 (absent_head_None f) Hall) as Hhead.
  pose proof Hall as Hall'. rewrite Forall_forall in Hall'.
  destruct (Hall' "PHASE") as [phase Hphase]; [set_solver|].
  destruct (Hall' "TOT MASS (Kg)") as [mass Hmass]; [set_solver|].
  eexists. split; [by apply ensure_columns_returns|].
  rewrite (ensure_columns_returns _ _ _ _ _
             (validated parse_float str_of_float str_of_missing f phase mass)
             (astype_str str_of_float str_of_missing <$> phase)
             (coerce_mass parse_float <$> mass)).
  - cbn. by rewrite insert_insert_eq, validated_fixed.
  - cbn. apply lookup_insert_eq.
  - apply absent_head_None.
    pose proof (validated_has_columns f phase mass Hphase Hmass Hall) as Hv.
    by apply Forall_app in Hv as [Hv _].
  - by rewrite (validated_lookup _ _ _ _ _ _ _ Hphase Hmass).
  - by rewrite (validated_lookup _ _ _ _ _ _ _ Hphase Hmass).
Qed.

(** X12: on a frame that has the required columns and one cell per line in
    every column, the validator leaves a frame with the seven columns the
    page reads, again one cell per line in every column, whose mass cells
    are all numbers and whose phase cells are all texts, but for the cells
    that were empty where [astype(str)] leaves an empty cell empty. *)
Theorem ensure_columns_well_formed (σ : session) (df : ref) (f : RawFrame) :
  heap σ !! df = Some f →
  Forall (λ c, is_Some (columns f !! c)) required →
  rectangular f →
  ∃ σ' f' phase mass,
    ensure_columns parse_float str_of_float str_of_missing df σ = (Returned df, σ')
    ∧ heap σ' !! df = Some f'
    ∧ rectangular f'
    ∧ Forall (λ c, is_Some (columns f' !! c))
             (required ++ ["Etape"; "RowProgress%"; "CompletedMass_Row"])
    ∧ columns f' !! "PHASE" = Some phase
    ∧ Forall (λ c, (∃ s, c = CStr s) ∨ (c = CNaN ∧ str_of_missing = None))
             phase
    ∧ columns f' !! "TOT MASS (Kg)" = Some mass
    ∧ Forall (λ c, ∃ q, c = CNum q) mass.
Proof.
  intros Hf Hall Hrect. pose proof (proj2 (absent_head_None f) Hall) as Hhead.
  pose proof Hall as Hall'. rewrite Forall_forall in Hall'.
  destruct (Hall' "PHASE") as [phase Hphase]; [set_solver|].
  destruct (Hall' "TOT MASS (Kg)") as [mass Hmass]; [set_solver|].
  eexists _, (validated parse_float str_of_float str_of_missing f phase mass), _, _.
  split_and!.
  - by apply ensure_columns_returns.
  - cbn. apply lookup_insert_eq.
  - intros c col. rewrite (validated_lookup _ _ _ _ _ _ _ Hphase Hmass).
    change (nrows (validated parse_float str_of_float str_of_missing f phase mass))
      with (nrows f).
    repeat case_decide; subst.
    + intros [= <-]. rewrite length_fmap. by apply (Hrect "PHASE").
    + intros [= <-]. rewrite length_fmap. by apply (Hrect "TOT MASS (Kg)").
    + destruct (columns f !! "Etape") as [col'|] eqn:Hc; intros [= <-]; cbn.
      * by apply (Hrect "Etape").
      * apply length_replicate.
    + destruct (columns f !! "RowProgress%") as [col'|] eqn:Hc;
        intros [= <-]; cbn.
      * by apply (Hrect "RowProgress%").
      * apply length_replicate.
    + destruct (columns f !! "CompletedMass_Row") as [col'|] eqn:Hc;
        intros [= <-]; cbn.
      * by apply (Hrect "CompletedMass_Row").
      * apply length_replicate.
    + apply Hrect.
  - by apply validated_has_columns.
  - by rewrite (validated_lookup _ _ _ _ _ _ _ Hphase Hmass).
  - apply Forall_fmap, Forall_forall. intros [s|q|] _; cbn.
    + left. by eexists.
    + left. by eexists.
    + destruct str_of_missing; [left; by eexists|by right].
  - by rewrite (validated_lookup _ _ _ _ _ _ _ Hphase Hmass).
  - apply Forall_fmap, Forall_forall. intros c _. by eexists.
Qed.

End ValidatorInvariants.

Lemma ensure_columns_idempotent_witness :
  heap bare_session !! 0%nat = Some bare_sheet
  ∧ Forall (λ c, is_Some (columns bare_sheet !! c)) required
  ∧ ∃ σ',
      ensure_columns no_parse no_print missing_as_nan 0%nat bare_session = (Returned 0%nat, σ')
      ∧ ensure_columns no_parse no_print missing_as_nan 0%nat σ' = (Returned 0%nat, σ').
Proof.
  assert (H : heap bare_session !! 0%nat = Some bare_sheet) by (by vm_compute).
  assert (Hall : Forall (λ c, is_Some (columns bare_sheet !! c)) required).
  { unfold required. repeat (apply Forall_cons_2; [by vm_compute; eexists|]).
    apply Forall_nil_2. }
  split; [exact H|]. split; [exact Hall|].
  exact (ensure_columns_idempotent no_parse no_print missing_as_nan
           bare_session 0%nat bare_sheet H Hall).
Defined.

Lemma ensure_columns_well_formed_witness :
  heap bare_session !! 0%nat = Some bare_sheet
  ∧ Forall (λ c, is_Some (columns bare_sheet !! c)) required
  ∧ rectangular bare_sheet
  ∧ ∃ σ' f',
      ensure_columns no_parse no_print missing_as_nan 0%nat bare_session = (Returned 0%nat, σ')
      ∧ heap σ' !! 0%nat = Some f'
      ∧ rectangular f'.
Proof.
  assert (H : heap bare_session !! 0%nat = Some bare_sheet) by (by vm_compute).
  assert (Hall : Forall (λ c, is_Some (columns bare_sheet !! c)) required).
  { unfold required. repeat (apply Forall_cons_2; [by vm_compute; eexists|]).
    apply Forall_nil_2. }
  assert (Hrect : rectangular bare_sheet).
  { unfold rectangular, bare_sheet. cbn [columns nrows list_to_map foldr].
    repeat (apply map_Forall_insert_2; [done|]). apply map_Forall_empty. }
  split; [exact H|]. split; [exact Hall|]. split; [exact Hrect|].
  destruct (ensure_columns_well_formed no_parse no_print missing_as_nan
              bare_session 0%nat bare_sheet H Hall Hrect)
    as [σ' [f' [_ [_ [Hrun [Hf' [Hr _]]]]]]].
  exists σ', f'. by split_and!.
Defined.

(** ** The session across runs of the script *)

Lemma recompute_progress_twice df :
  recompute_progress (recompute_progress df) = recompute_progress df.
Proof.
  rewrite !recompute_progress_fmap, <- list_fmap_compose.
  by apply list_fmap_ext.
Qed.

Lemma source_key_differs_false ss key :
  source_key_differs ss key = false ↔ ss !! "source_key" = Some (SStr key).
Proof.
  unfold source_key_differs.
  destruct (ss !! "source_key") as [[df|k|b]|]; try (split; done).
  rewrite negb_false_iff, String.eqb_eq. split; [by intros ->|by intros [= ->]].
Qed.

(** The table the session holds after section 1.b: the loaded one when the
    session had none or had one from another source, the one it had
    otherwise. *)
Lemma init_session_df d key ss :
  session_ok ss →
  init_session d key ss !! "df" =
    Some (SFrame (match ss !! "df" with
                  | Some (SFrame old) =>
                      if source_key_differs ss key then d else old
                  | _ => d
                  end)).
Proof.
  unfold session_ok, init_session. intros Hok. cbn zeta.
  destruct (source_key_differs ss key);
    destruct (ss !! "df") as [[old|k|b]|] eqn:Hdf; try done;
    repeat case_bool_decide; by simplify_map_eq.
Qed.

Lemma init_session_source_key d key ss :
  init_session d key ss !! "source_key" = Some (SStr key).
Proof.
  unfold init_session. cbn zeta.
  destruct (source_key_differs ss key) eqn:Hk;
    [|apply source_key_differs_false in Hk];
    repeat case_bool_decide; by simplify_map_eq.
Qed.

Lemma init_session_refresh_needed d key ss :
  init_session d key ss !! "refresh_needed" =
    Some (default (SBool false) (ss !! "refresh_needed")).
Proof.
  unfold init_session. cbn zeta.
  destruct (source_key_differs ss key);
    destruct (ss !! "refresh_needed") as [v|] eqn:Hr;
    repeat case_bool_decide; by simplify_map_eq.
Qed.

Lemma init_session_other d key ss k :
  k ∉ ["df"; "source_key"; "refresh_needed"] →
  init_session d key ss !! k = ss !! k.
Proof.
  rewrite !not_elem_of_cons. intros (?&?&?&_). unfold init_session. cbn zeta.
  destruct (source_key_differs ss key);
    repeat case_bool_decide; by simplify_map_eq.
Qed.

(** X13: from a session that holds no table, or a table, under "df", a run
    of the script never fails.  Afterwards the session holds under "df" the
    recomputed table, which is the loaded one when the session had none or
    had one from another source and the one it had otherwise; under
    "source_key" the label of the current source; under "refresh_needed"
    the flag it had, or false; and everything else as before. *)
Theorem script_run_session (d : DataFrame) (key : string)
    (ss : gmap string ss_value) :
  session_ok ss →
  ∃ ss',
    script_run d key ss = Some ss'
    ∧ ss' !! "df" =
        Some (SFrame (recompute_progress
                (match ss !! "df" with
                 | Some (SFrame old) =>
                     if source_key_differs ss key then d else old
                 | _ => d
                 end)))
    ∧ ss' !! "source_key" = Some (SStr key)
    ∧ ss' !! "refresh_needed"
      = Some (default (SBool false) (ss !! "refresh_needed"))
    ∧ (∀ k, k ∉ ["df"; "source_key"; "refresh_needed"] → ss' !! k = ss !! k)
    ∧ session_ok ss'.
Proof.
  intros Hok. unfold script_run, first_recompute.
  rewrite (init_session_df d key ss Hok). eexists. split; [done|].
  split_and!.
  - apply lookup_insert_eq.
  - rewrite lookup_insert_ne by done. apply init_session_source_key.
  - rewrite lookup_insert_ne by done. apply init_session_refresh_needed.
  - intros k Hk. rewrite lookup_insert_ne.
    + by apply init_session_other.
    + intros <-. apply Hk. set_solver.
  - unfold session_ok. by rewrite lookup_insert_eq.
Qed.

Lemma script_run_session_witness :
  session_ok ∅
  ∧ ∃ ss', script_run scenario_table "local::Structural_data.xlsx" ∅ = Some ss'
      ∧ ss' !! "source_key" = Some (SStr "local::Structural_data.xlsx").
Proof.
  assert (H : session_ok ∅) by (by vm_compute).
  split; [exact H|].
  destruct (script_run_session scenario_table "local::Structural_data.xlsx" ∅ H)
    as [ss' [Hrun [_ [Hkey _]]]].
  exists ss'. by split.
Defined.

(** What a run leaves in the session. *)
Lemma script_run_inv d key ss ss' :
  script_run d key ss = Some ss' →
  ∃ df, ss' !! "df" = Some (SFrame (recompute_progress df))
    ∧ ss' !! "source_key" = Some (SStr key)
    ∧ is_Some (ss' !! "refresh_needed").
Proof.
  unfold script_run, first_recompute. intros Hrun.
  destruct (init_session d key ss !! "df") as [[df|k|b]|] eqn:Hdf; try done.
  injection Hrun as <-. exists df. split_and!.
  - apply lookup_insert_eq.
  - rewrite lookup_insert_ne by done. apply init_session_source_key.
  - rewrite lookup_insert_ne by done. rewrite init_session_refresh_needed.
    by eexists.
Qed.

(** X14: a new run on the same source leaves the session as the run before
    left it, whatever the loader hands over this time: the table of the
    session is not replaced, and recomputing it changes nothing. *)
Theorem script_run_again (d d' : DataFrame) (key : string)
    (ss ss' : gmap string ss_value) :
  script_run d key ss = Some ss' →
  script_run d' key ss' = Some ss'.
Proof.
  intros (df & Hdf & Hkey & [v Hv])%script_run_inv.
  assert (Hinit : init_session d' key ss' = ss').
  { unfold init_session. cbn zeta.
    rewrite (proj2 (source_key_differs_false ss' key) Hkey).
    rewrite (bool_decide_false (ss' !! "df" = None)) by by rewrite Hdf.
    by rewrite (bool_decide_false (ss' !! "refresh_needed" = None))
      by by rewrite Hv. }
  unfold script_run, first_recompute. rewrite Hinit, Hdf.
  rewrite recompute_progress_twice. by rewrite insert_id.
Qed.

Lemma script_run_again_witness :
  script_run scenario_table "local::Structural_data.xlsx" ∅
  = Some (<["df" := SFrame (recompute_progress scenario_table)]>
            (<["refresh_needed" := SBool false]>
               (<["source_key" := SStr "local::Structural_data.xlsx"]>
                  (<["df" := SFrame scenario_table]> ∅))))
  ∧ script_run negative_table "local::Structural_data.xlsx"
      (<["df" := SFrame (recompute_progress scenario_table)]>
         (<["refresh_needed" := SBool false]>
            (<["source_key" := SStr "local::Structural_data.xlsx"]>
               (<["df" := SFrame scenario_table]> ∅))))
    = Some (<["df" := SFrame (recompute_progress scenario_table)]>
              (<["refresh_needed" := SBool false]>
                 (<["source_key" := SStr "local::Structural_data.xlsx"]>
                    (<["df" := SFrame scenario_table]> ∅)))).
Proof.
  assert (H : script_run scenario_table "local::Structural_data.xlsx" ∅
    = Some (<["df" := SFrame (recompute_progress scenario_table)]>
              (<["refresh_needed" := SBool false]>
                 (<["source_key" := SStr "local::Structural_data.xlsx"]>
                    (<["df" := SFrame scenario_table]> ∅)))))
    by reflexivity.
  split; [exact H|].
  exact (script_run_again scenario_table negative_table _ _ _ H).
Defined.

(** X15: a run on another source replaces the table of the session by the
    recomputed table of the loader, records the new label and keeps the
    flag. *)
Theorem script_run_new_source (d d' : DataFrame) (key key' : string)
    (ss ss' : gmap string ss_value) :
  script_run d key ss = Some ss' →
  key' ≠ key →
  ∃ ss'',
    script_run d' key' ss' = Some ss''
    ∧ ss'' !! "df" = Some (SFrame (recompute_progress d'))
    ∧ ss'' !! "source_key" = Some (SStr key')
    ∧ ss'' !! "refresh_needed" = ss' !! "refresh_needed".
Proof.
  intros (df & Hdf & Hkey & [v Hv])%script_run_inv Hne.
  assert (Hok : session_ok ss') by (unfold session_ok; by rewrite Hdf).
  assert (Hdiff : source_key_differs ss' key' = true).
  { apply not_false_iff_true. rewrite source_key_differs_false, Hkey.
    intros [= ->]. done. }
  unfold script_run, first_recompute.
  rewrite (init_session_df d' key' ss' Hok), Hdf, Hdiff.
  eexists. split; [done|]. split_and!.
  - apply lookup_insert_eq.
  - rewrite lookup_insert_ne by done. apply init_session_source_key.
  - rewrite lookup_insert_ne by done.
    by rewrite init_session_refresh_needed, Hv.
Qed.

Lemma script_run_new_source_witness :
  script_run scenario_table "local::Structural_data.xlsx" ∅
  = Some (<["df" := SFrame (recompute_progress scenario_table)]>
            (<["refresh_needed" := SBool false]>
               (<["source_key" := SStr "local::Structural_data.xlsx"]>
                  (<["df" := SFrame scenario_table]> ∅))))
  ∧ "upload::other.xlsx" ≠ "local::Structural_data.xlsx"
  ∧ ∃ ss'',
      script_run negative_table "upload::other.xlsx"
        (<["df" := SFrame (recompute_progress scenario_table)]>
           (<["refresh_needed" := SBool false]>
              (<["source_key" := SStr "local::Structural_data.xlsx"]>
                 (<["df" := SFrame scenario_table]> ∅))))
      = Some ss''
      ∧ ss'' !! "df" = Some (SFrame (recompute_progress negative_table)).
Proof.
  assert (H : script_run scenario_table "local::Structural_data.xlsx" ∅
    = Some (<["df" := SFrame (recompute_progress scenario_table)]>
              (<["refresh_needed" := SBool false]>
                 (<["source_key" := SStr "local::Structural_data.xlsx"]>
                    (<["df" := SFrame scenario_table]> ∅)))))
    by reflexivity.
  assert (Hne : "upload::other.xlsx" ≠ "local::Structural_data.xlsx") by done.
  split; [exact H|]. split; [exact Hne|].
  destruct (script_run_new_source scenario_table negative_table
              _ "upload::other.xlsx" _ _ H Hne) as [ss'' [Hrun [Hdf _]]].
  exists ss''. by split.
Defined.

(** ** The order of the lines of the sheet *)

#[local] Instance str_le_antisymm : AntiSymm (=) str_le.
Proof.
  intros a b Hab Hba. apply String.leb_antisym; by apply Is_true_true.
Qed.

Lemma pair_lt_irrefl a : ¬ pair_lt a a.
Proof. intros [H|[_ H]]; by apply str_lt_irrefl in H. Qed.

#[local] Instance pair_le_antisymm : AntiSymm (=) pair_le.
Proof.
  intros a b [Hab|?]%pair_le_lt_eq [Hba|?]%pair_le_lt_eq; try done.
  exfalso. by apply (pair_lt_irrefl a), (pair_lt_trans _ b).
Qed.

(** The distinct values of two columns with the same cells come out of the
    sort in the same order. *)
Lemma merge_sort_unique_Permutation {A} `{EqDecision A} (R : relation A)
    `{∀ x y, Decision (R x y)} `{!Transitive R} `{!Total R}
    `{!AntiSymm (=) R} (l l' : list A) :
  l ≡ₚ l' → merge_sort R (unique l) = merge_sort R (unique l').
Proof.
  intros Hl. apply (StronglySorted_unique R).
  - by apply StronglySorted_merge_sort.
  - by apply StronglySorted_merge_sort.
  - rewrite !merge_sort_Permutation.
    apply NoDup_Permutation; [apply NoDup_unique..|].
    intros x. by rewrite !elem_of_unique, Hl.
Qed.

(** X17: the phases of the phase aggregation, and their order, do not depend
    on the order of the lines of the table: two tables with the same lines
    give the same phases in the same order. *)
Theorem phase_advancement_Permutation (df df' : DataFrame) :
  df ≡ₚ df' →
  phase_PHASE <$> phase_advancement df = phase_PHASE <$> phase_advancement df'.
Proof.
  intros Hdf. rewrite !phase_advancement_phases. unfold sorted.
  apply (merge_sort_unique_Permutation str_le). by rewrite Hdf.
Qed.

Lemma phase_advancement_Permutation_witness :
  mixed_table ≡ₚ reverse mixed_table
  ∧ phase_PHASE <$> phase_advancement mixed_table
    = phase_PHASE <$> phase_advancement (reverse mixed_table).
Proof.
  assert (H : mixed_table ≡ₚ reverse mixed_table)
    by (symmetry; apply reverse_Permutation).
  split; [exact H|].
  exact (phase_advancement_Permutation _ _ H).
Defined.

(** The rank of a group does not depend on the order of its lines. *)
Lemma EtapeRank_agg_Permutation (g g' : list Row) :
  g ≡ₚ g' → EtapeRank_agg (Etape <$> g) = EtapeRank_agg (Etape <$> g').
Proof.
  intros Hg. destruct g as [|r g].
  { apply Permutation_nil_l in Hg. by subst. }
  assert (Hne : r :: g ≠ []) by done.
  assert (Hne' : g' ≠ []).
  { intros ->. by apply Permutation_nil_r in Hg. }
  destruct (EtapeRank_agg_min _ Hne) as [Hall Hex].
  destruct (EtapeRank_agg_min _ Hne') as [Hall' Hex'].
  rewrite Forall_forall in Hall. rewrite Forall_forall in Hall'.
  apply Exists_exists in Hex as [x [Hx Hmx]].
  apply Exists_exists in Hex' as [x' [Hx' Hmx']].
  rewrite Hg in Hx. rewrite <- Hg in Hx'.
  specialize (Hall x' Hx'). specialize (Hall' x Hx). lia.
Qed.

(** X18: the assemblies of the rollup, their order and their steps do not
    depend on the order of the lines of the table: two tables with the same
    lines give line for line the same phase, the same assembly number and
    the same step. *)
Theorem assembly_table_Permutation (df df' : DataFrame) :
  df ≡ₚ df' →
  Forall2 (λ a b,
      asm_PHASE a = asm_PHASE b ∧ asm_ASSEMBLY_NO a = asm_ASSEMBLY_NO b
      ∧ EtapeAsm a = EtapeAsm b)
    (assembly_table df) (assembly_table df').
Proof.
  intros Hdf. rewrite !assembly_table_eq.
  rewrite (merge_sort_unique_Permutation pair_le
             (group_key <$> df) (group_key <$> df')) by by rewrite Hdf.
  apply Forall2_fmap, Forall_Forall2_diag, Forall_forall. intros k _.
  assert (Hg : members k df ≡ₚ members k df')
    by (unfold members; by rewrite Hdf).
  split_and!; [done..|].
  cbn. f_equal. by apply EtapeRank_agg_Permutation.
Qed.

Lemma assembly_table_Permutation_witness :
  mixed_table ≡ₚ reverse mixed_table
  ∧ Forall2 (λ a b,
        asm_PHASE a = asm_PHASE b ∧ asm_ASSEMBLY_NO a = asm_ASSEMBLY_NO b
        ∧ EtapeAsm a = EtapeAsm b)
      (assembly_table mixed_table) (assembly_table (reverse mixed_table)).
Proof.
  assert (H : mixed_table ≡ₚ reverse mixed_table)
    by (symmetry; apply reverse_Permutation).
  split; [exact H|].
  exact (assembly_table_Permutation _ _ H).
Defined.
